(** * Tic-Tac-Toe with minimax: the game logic of [tictactoe_logic.py]

    A shallow embedding of the [TicTacToe] class and of the two search
    functions [minimax] and [find_best_move].

    - The grid [self.board] is a Python list of three lists of three
      strings.  It is modelled as [list (list string)], read and written by
      index; an index out of range raises [IndexError], as in Python.
    - The methods of [TicTacToe] only read the grid.  [minimax] and
      [find_best_move] write to it (place a mark, recurse, clear the mark):
      they take the grid and return it next to their result, so that the
      grid the caller observes afterwards is part of what is specified.
    - [minimax] recurses on a grid with one more mark.  The embedding takes
      a recursion budget [fuel]; the theorems show that a budget above the
      number of empty cells always suffices.
    - [print_board] is modelled by the lines it prints; the handlers of the
      window in [main.py] ([player_move], [ai_move], [restart_game]) by what
      they do to the game, to [game_active] and to the options of the
      widgets. *)

From Stdlib Require Import ZArith String Lia DecimalString.
From stdpp Require Import base tactics option list relations strings.

Local Open Scope string_scope.
Local Open Scope list_scope.

(** ** Results: a value, a Python [IndexError], or an exhausted budget *)

Inductive Res (A : Type) : Type :=
  | Ret (a : A)
  | IndexError
  | OutOfFuel.

Arguments Ret {A} a.
Arguments IndexError {A}.
Arguments OutOfFuel {A}.

#[global] Instance Res_eq_dec {A : Type} `{EqDecision A} : EqDecision (Res A).
Proof. solve_decision. Defined.

#[global] Instance Res_ret : MRet Res := fun A a => Ret a.
#[global] Instance Res_bind : MBind Res := fun A B f m =>
  match m with
  | Ret a => f a
  | IndexError => IndexError
  | OutOfFuel => OutOfFuel
  end.

(** ** Scores: Python ints, and the floats [-inf] and [inf] of the loops *)

Inductive Score : Type :=
  | NegInf
  | Fin (z : Z)
  | PosInf.

(** [a < b] on scores. *)
Definition score_ltb (a b : Score) : bool :=
  match a, b with
  | NegInf, NegInf => false
  | NegInf, _ => true
  | Fin _, NegInf => false
  | Fin x, Fin y => (x <? y)%Z
  | Fin _, PosInf => true
  | PosInf, _ => false
  end.

(** Python's [max(a, b)]: [b] if [b > a], else [a]. *)
Definition score_max (a b : Score) : Score :=
  if score_ltb a b then b else a.

(** Python's [min(a, b)]: [b] if [b < a], else [a]. *)
Definition score_min (a b : Score) : Score :=
  if score_ltb b a then b else a.

(** ** The board *)

Abbreviation Grid := (list (list string)).
Abbreviation Move := (nat * nat)%type.

Definition EMPTY : string := EmptyString.
Definition HUMAN : string := "X".
Definition COMPUTER : string := "O".

(** [range(3)] *)
Definition range3 : list nat := [0; 1; 2].

(** [TicTacToe.__init__]: three fresh rows of three empty strings. *)
Definition new_board : Grid :=
  map (fun _ => map (fun _ => EMPTY) range3) range3.

(** [board[row][col]] *)
Definition get (board : Grid) (row col : nat) : Res string :=
  match board !! row with
  | Some r =>
      match r !! col with
      | Some v => Ret v
      | None => IndexError
      end
  | None => IndexError
  end.

(** [board[row][col] = v] *)
Definition set (board : Grid) (row col : nat) (v : string) : Res Grid :=
  match board !! row with
  | Some r =>
      match r !! col with
      | Some _ => Ret (<[row := <[col := v]> r]> board)
      | None => IndexError
      end
  | None => IndexError
  end.

(** *** [get_available_moves] *)

(** The inner loop [for col in range(3)] of [get_available_moves]. *)
Fixpoint scan_cols (board : Grid) (row : nat) (cols : list nat)
    (available_moves : list Move) : Res (list Move) :=
  match cols with
  | [] => Ret available_moves
  | col :: cols' =>
      v ← get board row col;
      scan_cols board row cols'
        (if String.eqb v EMPTY then available_moves ++ [(row, col)]
         else available_moves)
  end.

(** The outer loop [for row in range(3)]. *)
Fixpoint scan_rows (board : Grid) (rows : list nat)
    (available_moves : list Move) : Res (list Move) :=
  match rows with
  | [] => Ret available_moves
  | row :: rows' =>
      available_moves' ← scan_cols board row range3 available_moves;
      scan_rows board rows' available_moves'
  end.

Definition get_available_moves (board : Grid) : Res (list Move) :=
  scan_rows board range3 [].

(** *** [check_winner] *)

(** [all(board[r][c] == player for (r, c) in cells)]; the generator is read
    lazily, so the first cell that differs ends the reading. *)
Fixpoint all_cells (board : Grid) (player : string) (cells : list Move)
    : Res bool :=
  match cells with
  | [] => Ret true
  | (r, c) :: cells' =>
      v ← get board r c;
      if String.eqb v player then all_cells board player cells'
      else Ret false
  end.

(** [for line in lines: if all(...): return True]; [Ret false] stands for
    the loop running to its end. *)
Fixpoint any_line (board : Grid) (player : string) (lines : list (list Move))
    : Res bool :=
  match lines with
  | [] => Ret false
  | line :: lines' =>
      a ← all_cells board player line;
      if a : bool then Ret true else any_line board player lines'
  end.

Definition row_lines : list (list Move) :=
  map (fun row => map (fun col => (row, col)) range3) range3.
Definition col_lines : list (list Move) :=
  map (fun col => map (fun row => (row, col)) range3) range3.
Definition main_diagonal : list Move := map (fun i => (i, i)) range3.
Definition anti_diagonal : list Move := map (fun i => (i, 2 - i)) range3.

Definition check_winner (board : Grid) (player : string) : Res bool :=
  r ← any_line board player row_lines;
  if r : bool then Ret true else
  c ← any_line board player col_lines;
  if c : bool then Ret true else
  d ← all_cells board player main_diagonal;
  if d : bool then Ret true else
  a ← all_cells board player anti_diagonal;
  if a : bool then Ret true else
  Ret false.

(** *** [is_draw] *)

Definition is_draw (board : Grid) : Res bool :=
  x ← check_winner board HUMAN;
  if x : bool then Ret false else
  o ← check_winner board COMPUTER;
  if o : bool then Ret false else
  moves ← get_available_moves board;
  Ret (Nat.eqb (length moves) 0).

(** ** The search *)

(** The body of the two [for row, col in board.get_available_moves()] loops of
    [minimax]: place [mark], evaluate with [rec], clear the cell, fold the
    score into [best_score] with [pick] ([max] or [min]). *)
Fixpoint search_loop (rec : Grid -> Res (Score * Grid)) (mark : string)
    (pick : Score -> Score -> Score) (moves : list Move) (board : Grid)
    (best_score : Score) : Res (Score * Grid) :=
  match moves with
  | [] => Ret (best_score, board)
  | (row, col) :: moves' =>
      board1 ← set board row col mark;
      '(score, board2) ← rec board1;
      board3 ← set board2 row col EMPTY;
      search_loop rec mark pick moves' board3 (pick best_score score)
  end.

Fixpoint minimax (fuel : nat) (board : Grid) (depth : Z) (is_maximizing : bool)
    : Res (Score * Grid) :=
  match fuel with
  | O => OutOfFuel
  | S fuel' =>
      o ← check_winner board COMPUTER;
      if o : bool then Ret (Fin 1, board) else
      x ← check_winner board HUMAN;
      if x : bool then Ret (Fin (-1), board) else
      d ← is_draw board;
      if d : bool then Ret (Fin 0, board) else
      if is_maximizing then
        moves ← get_available_moves board;
        search_loop (fun b => minimax fuel' b (depth + 1) false)
          COMPUTER score_max moves board NegInf
      else
        moves ← get_available_moves board;
        search_loop (fun b => minimax fuel' b (depth + 1) true)
          HUMAN score_min moves board PosInf
  end.

(** The loop of [find_best_move]; [fuel] is the budget of each call of
    [minimax]. *)
Fixpoint best_loop (fuel : nat) (moves : list Move) (board : Grid)
    (best_move : option Move) (best_score : Score)
    : Res (option Move * Grid) :=
  match moves with
  | [] => Ret (best_move, board)
  | (row, col) :: moves' =>
      board1 ← set board row col COMPUTER;
      '(score, board2) ← minimax fuel board1 0 false;
      board3 ← set board2 row col EMPTY;
      if score_ltb best_score score
      then best_loop fuel moves' board3 (Some (row, col)) score
      else best_loop fuel moves' board3 best_move best_score
  end.

Definition find_best_move (fuel : nat) (board : Grid)
    : Res (option Move * Grid) :=
  available_moves ← get_available_moves board;
  match available_moves with
  | [] => Ret (None, board)
  | _ :: _ => best_loop fuel available_moves board None NegInf
  end.

(** ** Well-formed boards and their cells *)

(** The shape [__init__] builds and no function of the module changes:
    three rows of three cells. *)
Definition wf_board (board : Grid) : Prop :=
  length board = 3 /\ Forall (fun r => length r = 3) board.

(** The nine coordinates, row by row. *)
Definition cells : list Move :=
  flat_map (fun row => map (fun col => (row, col)) range3) range3.

(** The eight lines [check_winner] inspects, in its order. *)
Definition lines : list (list Move) :=
  row_lines ++ col_lines ++ [main_diagonal; anti_diagonal].

(** The content of a cell of a well-formed board. *)
Definition cell (board : Grid) (mv : Move) : string :=
  match get board mv.1 mv.2 with
  | Ret v => v
  | _ => EMPTY
  end.

(** [all(board[r][c] == player ...)] over the cells of [line]. *)
Definition line_full (board : Grid) (player : string) (line : list Move)
    : bool :=
  forallb (fun mv => String.eqb (cell board mv) player) line.

(** Some line holds [player] three times. *)
Definition has_line (board : Grid) (player : string) : bool :=
  existsb (line_full board player) lines.

(** [s] is the score [rec] returns, leaving the grid as it got it, once
    [mark] is placed on [mv]: the evaluation of one candidate move. *)
Definition child_score (rec : Grid -> Res (Score * Grid)) (mark : string)
    (board : Grid) (mv : Move) (s : Z) : Prop :=
  exists board1,
    set board mv.1 mv.2 mark = Ret board1 /\ rec board1 = Ret (Fin s, board1).

Definition is_max_of (s : Z) (scores : list Z) : Prop :=
  s ∈ scores /\ Forall (fun x => (x <= s)%Z) scores.

Definition is_min_of (s : Z) (scores : list Z) : Prop :=
  s ∈ scores /\ Forall (fun x => (s <= x)%Z) scores.

(** The scores [minimax] returns: -1, 0 or 1. *)
Definition unit_score (s : Z) : Prop := (-1 <= s <= 1)%Z.

(** The bookkeeping of the loop of [find_best_move] on the scores of the
    candidates: a candidate replaces the tracked one when its score is
    strictly greater ([if score > best_score]). *)
Fixpoint track (moves : list Move) (scores : list Z)
    (best_move : option Move) (best_score : Score) : option Move :=
  match moves, scores with
  | mv :: moves', s :: scores' =>
      if score_ltb best_score (Fin s)
      then track moves' scores' (Some mv) (Fin s)
      else track moves' scores' best_move best_score
  | _, _ => best_move
  end.

(** Position [i] holds the greatest score, and no earlier position does. *)
Definition first_max_at (i : nat) (scores : list Z) : Prop :=
  exists s, scores !! i = Some s /\
            Forall (fun x => (x <= s)%Z) scores /\
            forall j x, j < i -> scores !! j = Some x -> (x < s)%Z.

(** A position of the test-suite: X threatens the top row. *)
Definition sample_board : Grid :=
  [["X"; "X"; EMPTY]; ["O"; EMPTY; EMPTY]; [EMPTY; EMPTY; EMPTY]].

(** [len(board.get_available_moves())] *)
Definition count_empty (board : Grid) : nat :=
  match get_available_moves board with
  | Ret moves => length moves
  | _ => 0
  end.

(** ** A full game

    A game starts on the empty board with HUMAN to move.  While the board is
    not terminal (nobody has won and it is not a draw) the side to move places
    its mark: HUMAN on any cell of [get_available_moves()], COMPUTER on the
    cell [find_best_move] returns. *)

Inductive Turn : Type :=
  | HumanTurn
  | ComputerTurn.

Definition terminal (board : Grid) : Res bool :=
  x ← check_winner board HUMAN;
  o ← check_winner board COMPUTER;
  d ← is_draw board;
  Ret (x || o || d).

Inductive step : Grid * Turn -> Grid * Turn -> Prop :=
  | step_human board moves row col board' :
      terminal board = Ret false ->
      get_available_moves board = Ret moves ->
      (row, col) ∈ moves ->
      set board row col HUMAN = Ret board' ->
      step (board, HumanTurn) (board', ComputerTurn)
  | step_computer board fuel row col board1 board' :
      terminal board = Ret false ->
      find_best_move fuel board = Ret (Some (row, col), board1) ->
      set board1 row col COMPUTER = Ret board' ->
      step (board, ComputerTurn) (board', HumanTurn).

(** The states some game passes through. *)
Definition reachable (st : Grid * Turn) : Prop :=
  rtc step (new_board, HumanTurn) st.

(** [s] is the value of [board] with [is_maximizing] to move: what [minimax]
    returns under every sufficient budget, at every depth. *)
Definition value_is (board : Grid) (is_maximizing : bool) (s : Z) : Prop :=
  forall fuel depth,
    count_empty board < fuel ->
    minimax fuel board depth is_maximizing = Ret (Fin s, board).

(** The value of the board once the side to move has played [mv]. *)
Definition child_value (board : Grid) (is_maximizing : bool) (mv : Move)
    (s : Z) : Prop :=
  exists board1,
    set board mv.1 mv.2 (if is_maximizing then COMPUTER else HUMAN)
    = Ret board1 /\
    wf_board board1 /\ value_is board1 (negb is_maximizing) s.

(** [any(f(mv) for mv in moves)] and [all(f(mv) for mv in moves)], stopping at
    the first move that decides. *)
Fixpoint some_move (f : Move -> bool) (moves : list Move) : bool :=
  match moves with
  | [] => false
  | mv :: moves' => if f mv then true else some_move f moves'
  end.

Fixpoint every_move (f : Move -> bool) (moves : list Move) : bool :=
  match moves with
  | [] => true
  | mv :: moves' => if f mv then every_move f moves' else false
  end.

(** A strategy search for COMPUTER: some reply when it is to move, every move
    when HUMAN is, down to boards that are full or won by COMPUTER.  It looks
    at no score; [holds_draw_sound] relates it to the value of the board. *)
Fixpoint holds_draw (n : nat) (board : Grid) (is_maximizing : bool) : bool :=
  match n with
  | O => false
  | S n' =>
      if has_line board COMPUTER then true
      else if has_line board HUMAN then false
      else
        match filter (fun mv => cell board mv = EMPTY) cells with
        | [] => true
        | moves =>
            if is_maximizing then
              some_move (fun mv =>
                match set board mv.1 mv.2 COMPUTER with
                | Ret board1 => holds_draw n' board1 false
                | _ => false
                end) moves
            else
              every_move (fun mv =>
                match set board mv.1 mv.2 HUMAN with
                | Ret board1 => holds_draw n' board1 true
                | _ => false
                end) moves
        end
  end.

(** What holds of every state of a game: the side that is not to move has no
    line, and the value of the board is not negative. *)
Definition game_inv (st : Grid * Turn) : Prop :=
  wf_board st.1 /\
  match st.2 with
  | HumanTurn =>
      has_line st.1 HUMAN = false /\
      exists s, value_is st.1 false s /\ (0 <= s)%Z
  | ComputerTurn =>
      has_line st.1 COMPUTER = false /\
      exists s, value_is st.1 true s /\ (0 <= s)%Z
  end.

(** The board after X has opened in a corner, and after the reply. *)
Definition after_opening : Grid :=
  [["X"; EMPTY; EMPTY]; [EMPTY; EMPTY; EMPTY]; [EMPTY; EMPTY; EMPTY]].

Definition after_first_round : Grid :=
  [["X"; EMPTY; EMPTY]; [EMPTY; "O"; EMPTY]; [EMPTY; EMPTY; EMPTY]].

(** Positions of the test-suite. *)
Definition winning_board : Grid :=
  [["O"; "O"; EMPTY]; ["X"; "X"; "O"]; [EMPTY; EMPTY; EMPTY]].

Definition full_board : Grid :=
  [["X"; "O"; "X"]; ["O"; "X"; "O"]; ["O"; "X"; "O"]].

Definition won_board : Grid :=
  [["O"; "O"; "O"]; ["X"; "X"; EMPTY]; [EMPTY; EMPTY; EMPTY]].

(** ** [print_board]

    What [print_board] prints, one string for each call of [print]. *)

(** [str(n)] for an index of [enumerate]. *)
Definition str_of_nat (n : nat) : string :=
  NilEmpty.string_of_uint (Nat.to_uint n).

(** [f'({i},{j})'] *)
Definition coords_text (i j : nat) : string :=
  ("(" ++ str_of_nat i ++ "," ++ str_of_nat j ++ ")")%string.

(** [sep.join(items)] *)
Fixpoint join (sep : string) (items : list string) : string :=
  match items with
  | [] => EmptyString
  | x :: items' =>
      match items' with
      | [] => x
      | _ :: _ => (x ++ sep ++ join sep items')%string
      end
  end.

(** [s * n] *)
Fixpoint string_times (s : string) (n : nat) : string :=
  match n with
  | O => EmptyString
  | S n' => (s ++ string_times s n')%string
  end.

(** The inner loop [for j, cell in enumerate(row)], from index [j] on. *)
Fixpoint row_display (i j : nat) (row : list string) : list string :=
  match row with
  | [] => []
  | cell :: row' =>
      (if negb (String.eqb cell EMPTY) then cell else coords_text i j)
      :: row_display i (S j) row'
  end.

(** The outer loop [for i, row in enumerate(self.board)], from index [i]
    on. *)
Fixpoint print_rows (i : nat) (rows : Grid) : list string :=
  match rows with
  | [] => []
  | row :: rows' =>
      join " | " (row_display i 0 row)
      :: (if Nat.ltb i 2 then [string_times "-" 15] else [])
      ++ print_rows (S i) rows'
  end.

Definition print_board (board : Grid) : list string :=
  "Current Board State:" :: print_rows 0 board.

(** The marks the game writes. *)
Definition game_mark (v : string) : Prop :=
  v = EMPTY \/ v = HUMAN \/ v = COMPUTER.

(** A 3x3 board holding only marks of the game. *)
Definition game_board (board : Grid) : Prop :=
  wf_board board /\ Forall (Forall game_mark) board.

(** ** The window of [main.py]

    [TicTacToeGUI] holds the game, the flag [game_active] and its widgets.  A
    widget is modelled by the options the code sets on it and its tests read
    back: [text], [fg] and [state] of a button, [text] and [fg] of the status
    label.  [root.after(500, self.ai_move)] registers a callback; [scheduled]
    counts the callbacks registered and not yet run.  A handler runs to its
    end before the next event is handled; [root.update()], which lets Tk
    handle the events that wait, is taken to find none. *)

Record Button : Type := mkButton {
  btn_text : string;
  btn_fg : option string;
  btn_state : string
}.

Record App : Type := mkApp {
  game : Grid;
  game_active : bool;
  status_text : string;
  status_fg : string;
  buttons : list (list Button);
  scheduled : nat
}.

(** [tk.Button(board_frame, text="", ...)]: no colour is set, the state is
    Tk's initial one. *)
Definition new_button : Button := mkButton EMPTY None "normal".

(** [TicTacToeGUI.__init__] and [setup_ui]. *)
Definition new_app : App :=
  mkApp new_board true "Your Turn! Click any cell to start." "green"
    (map (fun _ => map (fun _ => new_button) range3) range3) 0.

Definition update_status (message color : string) (app : App) : App :=
  mkApp (game app) (game_active app) message color (buttons app)
    (scheduled app).

(** [self.buttons[row][col].config(...)], [f] being what the call does to the
    options of the button. *)
Definition config_button (f : Button -> Button) (row col : nat)
    (bs : list (list Button)) : Res (list (list Button)) :=
  match bs !! row with
  | Some r =>
      match r !! col with
      | Some b => Ret (<[row := <[col := f b]> r]> bs)
      | None => IndexError
      end
  | None => IndexError
  end.

(** [for row in range(3): for col in range(3):
    self.buttons[row][col].config(...)] *)
Fixpoint config_buttons (f : Button -> Button) (positions : list Move)
    (bs : list (list Button)) : Res (list (list Button)) :=
  match positions with
  | [] => Ret bs
  | (row, col) :: positions' =>
      bs' ← config_button f row col bs;
      config_buttons f positions' bs'
  end.

Definition disable_button (b : Button) : Button :=
  mkButton (btn_text b) (btn_fg b) "disabled".

Definition disable_all_buttons (app : App) : Res App :=
  bs ← config_buttons disable_button cells (buttons app);
  Ret (mkApp (game app) (game_active app) (status_text app) (status_fg app)
         bs (scheduled app)).

(** The end of a game in both handlers: [self.update_status(message, color)],
    [self.game_active = False], [self.disable_all_buttons()], [return]. *)
Definition end_game (message color : string) (app : App) : Res App :=
  disable_all_buttons
    (mkApp (game app) false message color (buttons app) (scheduled app)).

Definition player_move (row col : nat) (app : App) : Res App :=
  if negb (game_active app) then Ret app else
  v ← get (game app) row col;
  if negb (String.eqb v EMPTY) then
    Ret (update_status "Cell already taken! Try another cell." "orange" app)
  else
    board ← set (game app) row col HUMAN;
    bs ← config_button (fun b => mkButton "X" (Some "blue") (btn_state b))
           row col (buttons app);
    won ← check_winner board HUMAN;
    if won : bool then
      end_game "Congratulations! You won!" "green"
        (mkApp board (game_active app) (status_text app) (status_fg app) bs
           (scheduled app))
    else
      draw ← is_draw board;
      if draw : bool then
        end_game "It's a draw! Good game!" "purple"
          (mkApp board (game_active app) (status_text app) (status_fg app) bs
             (scheduled app))
      else
        Ret (mkApp board (game_active app) "AI is thinking..." "orange" bs
               (S (scheduled app))).

(** [fuel] is the budget of the calls of [minimax] in [find_best_move]. *)
Definition ai_move (fuel : nat) (app : App) : Res App :=
  if negb (game_active app) then Ret app else
  '(best_move, board0) ← find_best_move fuel (game app);
  match best_move with
  | None =>
      Ret (mkApp board0 (game_active app) (status_text app) (status_fg app)
             (buttons app) (scheduled app))
  | Some (row, col) =>
      board ← set board0 row col COMPUTER;
      bs ← config_button (fun b => mkButton "O" (Some "red") (btn_state b))
             row col (buttons app);
      won ← check_winner board COMPUTER;
      if won : bool then
        end_game "AI wins! Better luck next time!" "red"
          (mkApp board (game_active app) (status_text app) (status_fg app) bs
             (scheduled app))
      else
        draw ← is_draw board;
        if draw : bool then
          end_game "It's a draw! Good game!" "purple"
            (mkApp board (game_active app) (status_text app) (status_fg app)
               bs (scheduled app))
        else
          Ret (mkApp board (game_active app) "Your turn! Make your move."
                 "green" bs (scheduled app))
  end.

Definition restart_game (app : App) : Res App :=
  bs ← config_buttons (fun _ => mkButton EMPTY (Some "black") "normal") cells
         (buttons app);
  Ret (mkApp new_board true "Your Turn! Click any cell to start." "green" bs
         (scheduled app)).

(** How both handlers leave a game that is over: the status set, the flag
    cleared, every button disabled. *)
Definition ended (message color : string) (board : Grid)
    (bs : list (list Button)) (n : nat) (app' : App) : Prop :=
  exists bs',
    config_buttons disable_button cells bs = Ret bs' /\
    app' = mkApp board false message color bs' n.

(** The events of the window: a click on a button of the board, a registered
    callback that comes due, a click on the restart button.  With
    [in_turn = true] the user waits for the reply: no click while a callback
    is registered. *)
Inductive gui_step (in_turn : bool) : App -> App -> Prop :=
  | gui_click row col app app' :
      (in_turn = true -> scheduled app = 0) ->
      player_move row col app = Ret app' ->
      gui_step in_turn app app'
  | gui_callback fuel n app app' :
      scheduled app = S n ->
      ai_move fuel
        (mkApp (game app) (game_active app) (status_text app) (status_fg app)
           (buttons app) n)
      = Ret app' ->
      gui_step in_turn app app'
  | gui_restart app app' :
      (in_turn = true -> scheduled app = 0) ->
      restart_game app = Ret app' ->
      gui_step in_turn app app'.

(** What the window keeps true: the board is 3x3 and holds marks of the
    game, the buttons show the board, [game_active] tells that the game is not
    over, and the buttons are disabled once it is. *)
Definition gui_inv (app : App) : Prop :=
  game_board (game app) /\
  fmap (M:=list) (fmap (M:=list) btn_text) (buttons app) = game app /\
  (game_active app = true <-> terminal (game app) = Ret false) /\
  (game_active app = false ->
   Forall (Forall (fun b => btn_state b = "disabled")) (buttons app)).


(** The window after a first click on the centre
    ([test_game_logic_gui_synchronization]). *)
Definition centre_clicked : App :=
  mkApp
    [[EMPTY; EMPTY; EMPTY]; [EMPTY; "X"; EMPTY]; [EMPTY; EMPTY; EMPTY]]
    true "AI is thinking..." "orange"
    [[new_button; new_button; new_button];
     [new_button; mkButton "X" (Some "blue") "normal"; new_button];
     [new_button; new_button; new_button]]
    1.

(** A position in which X threatens the top row and the game is still
    even. *)
Definition threat_board : Grid :=
  [["X"; "X"; EMPTY]; [EMPTY; "O"; EMPTY]; [EMPTY; EMPTY; EMPTY]].

(** A position won for O in which the first move of greatest score does not
    complete the bottom row. *)
Definition double_threat_board : Grid :=
  [[EMPTY; "X"; EMPTY]; ["X"; EMPTY; "X"]; ["O"; "O"; EMPTY]].

(** ** Scenarios from the test-suite *)

Example scenario_win :
  find_best_move 10 winning_board = Ret (Some (0, 2), winning_board).
Proof. vm_compute. reflexivity. Qed.

Example scenario_block :
  find_best_move 10 sample_board = Ret (Some (0, 2), sample_board).
Proof. vm_compute. reflexivity. Qed.

Example scenario_full :
  is_draw full_board = Ret true /\
  find_best_move 10 full_board = Ret (None, full_board).
Proof. split; vm_compute; reflexivity. Qed.

Example scenario_won : minimax 10 won_board 0 true = Ret (Fin 1, won_board).
Proof. vm_compute. reflexivity. Qed.

(** ** Reading and writing well-formed boards *)

Section Board.

Implicit Types (board : Grid) (mv : Move) (player v : string).

Lemma wf_board_shape board :
  wf_board board <->
  exists a0 a1 a2 b0 b1 b2 c0 c1 c2,
    board = [[a0; a1; a2]; [b0; b1; b2]; [c0; c1; c2]].
Proof.
  split.
  - intros [Hl Hr].
    destruct board as [|r0 [|r1 [|r2 [|]]]]; try discriminate Hl.
    apply Forall_cons in Hr as [H0 Hr].
    apply Forall_cons in Hr as [H1 Hr].
    apply Forall_cons in Hr as [H2 _].
    destruct r0 as [|? [|? [|? [|]]]]; try discriminate H0.
    destruct r1 as [|? [|? [|? [|]]]]; try discriminate H1.
    destruct r2 as [|? [|? [|? [|]]]]; try discriminate H2.
    repeat eexists.
  - intros (a0&a1&a2&b0&b1&b2&c0&c1&c2&->).
    split; [reflexivity|]. repeat constructor.
Qed.

Lemma wf_new_board : wf_board new_board.
Proof. split; [reflexivity|]. repeat constructor. Qed.

Lemma elem_of_cells r c : (r, c) ∈ cells <-> r < 3 /\ c < 3.
Proof.
  split.
  - intros H. apply list_elem_of_In in H. simpl in H.
    repeat (destruct H as [H|H]; [inversion H; lia|]). destruct H.
  - intros [Hr Hc]. apply list_elem_of_In. simpl.
    destruct r as [|[|[|r]]]; [| | |lia];
      (destruct c as [|[|[|c]]]; [| | |lia]); tauto.
Qed.

Lemma NoDup_cells : NoDup cells.
Proof. apply (bool_decide_unpack _). vm_compute. exact I. Qed.

Lemma get_cell board r c :
  wf_board board -> r < 3 -> c < 3 -> get board r c = Ret (cell board (r, c)).
Proof.
  intros [Hl Hr] Hlt Hc. unfold cell, get. simpl.
  destruct (board !! r) as [row|] eqn:Hrow.
  - assert (length row = 3) as Hlen.
    { eapply Forall_lookup_1 in Hr; [exact Hr|exact Hrow]. }
    destruct (row !! c) as [x|] eqn:Hx; [reflexivity|].
    apply lookup_ge_None in Hx. lia.
  - apply lookup_ge_None in Hrow. lia.
Qed.

(** *** [get_available_moves] on a well-formed board *)

Lemma scan_cols_filter board row cols acc :
  wf_board board -> row < 3 -> Forall (fun c => c < 3) cols ->
  scan_cols board row cols acc
  = Ret (acc ++ filter (fun mv => cell board mv = EMPTY)
                  (map (pair row) cols)).
Proof.
  intros Hwf Hrow Hcols. revert acc.
  induction Hcols as [|c cols Hc _ IH]; intros acc; simpl.
  - by rewrite app_nil_r.
  - rewrite (get_cell _ _ _ Hwf Hrow Hc). simpl. rewrite IH.
    rewrite filter_cons.
    destruct (String.eqb_spec (cell board (row, c)) EMPTY).
    + rewrite decide_True by done. by rewrite <- app_assoc.
    + by rewrite decide_False by done.
Qed.

Lemma scan_rows_filter board rows acc :
  wf_board board -> Forall (fun r => r < 3) rows ->
  scan_rows board rows acc
  = Ret (acc ++ filter (fun mv => cell board mv = EMPTY)
                  (flat_map (fun row => map (pair row) range3) rows)).
Proof.
  intros Hwf Hrows. revert acc.
  induction Hrows as [|r rows Hr _ IH]; intros acc.
  - simpl. by rewrite app_nil_r.
  - cbn [scan_rows flat_map]. rewrite scan_cols_filter; [|done|done|].
    + simpl mbind. rewrite IH, filter_app. by rewrite <- app_assoc.
    + repeat constructor.
Qed.

Lemma get_available_moves_filter board :
  wf_board board ->
  get_available_moves board
  = Ret (filter (fun mv => cell board mv = EMPTY) cells).
Proof.
  intros Hwf. unfold get_available_moves.
  rewrite scan_rows_filter; [done|done|repeat constructor].
Qed.

Lemma count_empty_filter board :
  wf_board board ->
  count_empty board = length (filter (fun mv => cell board mv = EMPTY) cells).
Proof.
  intros Hwf. unfold count_empty. by rewrite get_available_moves_filter.
Qed.

(** *** [check_winner] on a well-formed board *)

Lemma all_cells_pure board player line :
  wf_board board -> Forall (fun mv => mv ∈ cells) line ->
  all_cells board player line = Ret (line_full board player line).
Proof.
  intros Hwf Hline. induction Hline as [|[r c] line Hmv _ IH]; [done|].
  apply elem_of_cells in Hmv as [Hr Hc]. simpl.
  rewrite (get_cell _ _ _ Hwf Hr Hc). simpl.
  destruct (String.eqb _ _); [exact IH|done].
Qed.

Lemma any_line_pure board player ls :
  wf_board board -> Forall (Forall (fun mv => mv ∈ cells)) ls ->
  any_line board player ls = Ret (existsb (line_full board player) ls).
Proof.
  intros Hwf Hls. induction Hls as [|line ls Hline _ IH]; [done|].
  simpl. rewrite all_cells_pure by done. simpl.
  destruct (line_full _ _ _); [done|exact IH].
Qed.

Lemma lines_in_grid : Forall (Forall (fun mv => mv ∈ cells)) lines.
Proof.
  repeat constructor; apply elem_of_cells; simpl; lia.
Qed.

Lemma check_winner_pure board player :
  wf_board board -> check_winner board player = Ret (has_line board player).
Proof.
  intros Hwf. pose proof lines_in_grid as Hl. unfold lines in Hl.
  apply Forall_app in Hl as [Hrows Hl].
  apply Forall_app in Hl as [Hcols Hl].
  apply Forall_cons in Hl as [Hmain Hl].
  apply Forall_cons in Hl as [Hanti _].
  unfold check_winner, has_line, lines.
  rewrite !any_line_pure, !all_cells_pure by done.
  rewrite !existsb_app. cbn [existsb].
  destruct (existsb (line_full board player) row_lines); [done|].
  destruct (existsb (line_full board player) col_lines); [done|].
  destruct (line_full board player main_diagonal); [done|].
  by destruct (line_full board player anti_diagonal).
Qed.

Lemma is_draw_pure board :
  wf_board board ->
  is_draw board
  = Ret (negb (has_line board HUMAN) && negb (has_line board COMPUTER)
         && Nat.eqb (count_empty board) 0).
Proof.
  intros Hwf. unfold is_draw, count_empty.
  rewrite !check_winner_pure, get_available_moves_filter by done. simpl.
  destruct (has_line board HUMAN); [done|].
  by destruct (has_line board COMPUTER).
Qed.

(** *** Writing a cell *)

Lemma set_inv board r c v board' :
  set board r c v = Ret board' ->
  exists row x,
    board !! r = Some row /\ row !! c = Some x /\
    board' = <[r := <[c := v]> row]> board.
Proof.
  unfold set. intros H.
  destruct (board !! r) as [row|]; [|discriminate].
  destruct (row !! c) as [x|] eqn:Hx; [|discriminate].
  injection H as <-. by exists row, x.
Qed.

Lemma set_total board r c v :
  wf_board board -> r < 3 -> c < 3 ->
  exists board', set board r c v = Ret board'.
Proof.
  intros Hwf Hr Hc. pose proof (get_cell _ _ _ Hwf Hr Hc) as Hg.
  unfold get in Hg. unfold set.
  destruct (board !! r) as [row|]; [|discriminate].
  destruct (row !! c); [eauto|discriminate].
Qed.

Lemma set_wf board r c v board' :
  wf_board board -> set board r c v = Ret board' -> wf_board board'.
Proof.
  intros [Hl Hr] (row & x & Hrow & Hx & ->)%set_inv. split.
  - by rewrite length_insert.
  - apply Forall_insert; [done|]. rewrite length_insert.
    by eapply Forall_lookup_1 in Hr.
Qed.

Lemma cell_set board r c v board' mv :
  set board r c v = Ret board' ->
  cell board' mv = if decide (mv = (r, c)) then v else cell board mv.
Proof.
  intros (row & x & Hrow & Hx & ->)%set_inv.
  destruct mv as [r' c']. unfold cell, get. simpl.
  pose proof (lookup_lt_Some _ _ _ Hrow) as Hlr.
  pose proof (lookup_lt_Some _ _ _ Hx) as Hlc.
  destruct (decide (r = r')) as [<-|Hne].
  - rewrite list_lookup_insert_eq, Hrow by done.
    destruct (decide (c = c')) as [<-|Hnc].
    + rewrite list_lookup_insert_eq by done. by rewrite decide_True.
    + rewrite list_lookup_insert_ne by done.
      rewrite decide_False by congruence. done.
  - rewrite list_lookup_insert_ne by done.
    rewrite decide_False by congruence. done.
Qed.

(** Writing back what the cell held undoes the write. *)
Lemma set_undo board r c v board' :
  set board r c v = Ret board' ->
  set board' r c (cell board (r, c)) = Ret board.
Proof.
  intros (row & x & Hrow & Hx & ->)%set_inv.
  pose proof (lookup_lt_Some _ _ _ Hrow) as Hlr.
  pose proof (lookup_lt_Some _ _ _ Hx) as Hlc.
  unfold set, cell, get. simpl.
  rewrite list_lookup_insert_eq, Hrow, Hx by done.
  rewrite list_lookup_insert_eq by done.
  rewrite !list_insert_insert_eq.
  rewrite (list_insert_id row) by done.
  by rewrite list_insert_id.
Qed.

End Board.

(** ** The loops of the search *)

Section Folds.

Lemma score_max_Fin a b : score_max (Fin a) (Fin b) = Fin (Z.max a b).
Proof.
  unfold score_max, score_ltb. destruct (Z.ltb_spec a b); f_equal; lia.
Qed.

Lemma score_min_Fin a b : score_min (Fin a) (Fin b) = Fin (Z.min a b).
Proof.
  unfold score_min, score_ltb. destruct (Z.ltb_spec b a); f_equal; lia.
Qed.

Lemma fold_max_Fin scores a :
  fold_left score_max (map Fin scores) (Fin a)
  = Fin (fold_left Z.max scores a).
Proof.
  revert a. induction scores as [|x scores IH]; intros a; [done|].
  simpl. by rewrite score_max_Fin, IH.
Qed.

Lemma fold_min_Fin scores a :
  fold_left score_min (map Fin scores) (Fin a)
  = Fin (fold_left Z.min scores a).
Proof.
  revert a. induction scores as [|x scores IH]; intros a; [done|].
  simpl. by rewrite score_min_Fin, IH.
Qed.

Lemma fold_Zmax_spec scores a :
  is_max_of (fold_left Z.max scores a) (a :: scores).
Proof.
  revert a. induction scores as [|x scores IH]; intros a; simpl.
  - split; [left|]. by repeat constructor.
  - destruct (IH (Z.max a x)) as [Hin Hall]. split.
    + apply elem_of_cons in Hin as [Hin|Hin]; [|by do 2 right].
      rewrite Hin. destruct (Z.max_spec a x) as [[_ ->]|[_ ->]].
      * right. left.
      * left.
    + apply Forall_cons in Hall as [Ha Hall].
      repeat constructor; [lia|lia|done].
Qed.

Lemma fold_Zmin_spec scores a :
  is_min_of (fold_left Z.min scores a) (a :: scores).
Proof.
  revert a. induction scores as [|x scores IH]; intros a; simpl.
  - split; [left|]. by repeat constructor.
  - destruct (IH (Z.min a x)) as [Hin Hall]. split.
    + apply elem_of_cons in Hin as [Hin|Hin]; [|by do 2 right].
      rewrite Hin. destruct (Z.min_spec a x) as [[_ ->]|[_ ->]].
      * left.
      * right. left.
    + apply Forall_cons in Hall as [Ha Hall].
      repeat constructor; [lia|lia|done].
Qed.

(** Starting from [-inf], [max] over at least one int is an int: the
    greatest of them. *)
Lemma fold_max_NegInf scores :
  scores <> [] ->
  exists s, fold_left score_max (map Fin scores) NegInf = Fin s
            /\ is_max_of s scores.
Proof.
  destruct scores as [|x scores]; [done|]. intros _. simpl.
  change (score_max NegInf (Fin x)) with (Fin x).
  rewrite fold_max_Fin. eexists. split; [done|]. apply fold_Zmax_spec.
Qed.

Lemma fold_min_PosInf scores :
  scores <> [] ->
  exists s, fold_left score_min (map Fin scores) PosInf = Fin s
            /\ is_min_of s scores.
Proof.
  destruct scores as [|x scores]; [done|]. intros _. simpl.
  change (score_min PosInf (Fin x)) with (Fin x).
  rewrite fold_min_Fin. eexists. split; [done|]. apply fold_Zmin_spec.
Qed.

Lemma is_max_of_range (P : Z -> Prop) s scores :
  is_max_of s scores -> Forall P scores -> P s.
Proof. intros [Hin _] HP. by eapply Forall_forall in HP. Qed.

Lemma is_min_of_range (P : Z -> Prop) s scores :
  is_min_of s scores -> Forall P scores -> P s.
Proof. intros [Hin _] HP. by eapply Forall_forall in HP. Qed.

End Folds.

Section Search.

Implicit Types (board : Grid) (mv : Move) (mark : string).

Lemma search_loop_ext rec1 rec2 mark pick moves board best :
  (forall b, rec1 b = rec2 b) ->
  search_loop rec1 mark pick moves board best
  = search_loop rec2 mark pick moves board best.
Proof.
  intros Hrec. revert board best.
  induction moves as [|[row col] moves IH]; intros board best; [done|].
  simpl. destruct (set board row col mark) as [board1| |]; simpl; try done.
  rewrite Hrec. destruct (rec2 board1) as [[score board2]| |]; simpl; try done.
  destruct (set board2 row col EMPTY) as [board3| |]; simpl; try done.
Qed.

(** One run of a loop of [minimax] over empty cells: every candidate is
    scored on the grid the loop started with, and the grid is handed back
    as it was. *)
Lemma search_loop_spec (P : Z -> Prop) rec mark pick moves board best :
  Forall (fun mv => cell board mv = EMPTY) moves ->
  Forall (fun mv => exists s, P s /\ child_score rec mark board mv s) moves ->
  exists scores,
    Forall2 (child_score rec mark board) moves scores /\
    Forall P scores /\
    search_loop rec mark pick moves board best
    = Ret (fold_left pick (map Fin scores) best, board).
Proof.
  intros Hempty Hrec. revert best.
  induction moves as [|[row col] moves IH]; intros best.
  - exists []. by repeat constructor.
  - apply Forall_cons in Hempty as [He Hempty].
    apply Forall_cons in Hrec as [(s & Hs & board1 & Hset & Hr) Hrec].
    destruct (IH Hempty Hrec (pick best (Fin s)))
      as (scores & Hall & HP & Hloop).
    exists (s :: scores). split; [|split].
    + constructor; [by exists board1|done].
    + by constructor.
    + simpl in Hset. simpl. rewrite Hset. simpl. rewrite Hr. simpl.
      pose proof (set_undo _ _ _ _ _ Hset) as Hundo.
      rewrite He in Hundo. rewrite Hundo. simpl. exact Hloop.
Qed.

(** *** Placing a mark removes one empty cell *)

Lemma length_filter_ne (l : list Move) x :
  NoDup l -> x ∈ l -> S (length (filter (fun y => y <> x) l)) = length l.
Proof.
  induction 1 as [|y l Hy Hnd IH]; intros Hin; [by apply elem_of_nil in Hin|].
  rewrite filter_cons. destruct (decide (y <> x)) as [Hne|Heq].
  - apply elem_of_cons in Hin as [->|Hin]; [done|]. simpl. by rewrite IH.
  - apply dec_stable in Heq as ->. simpl. f_equal.
    clear IH Hin Hnd. induction l as [|z l IH]; [done|].
    apply not_elem_of_cons in Hy as [Hz Hy].
    rewrite filter_cons_True by done. simpl. by rewrite IH.
Qed.

Lemma moves_after_set board r c v board' :
  set board r c v = Ret board' -> v <> EMPTY ->
  filter (fun mv => cell board' mv = EMPTY) cells
  = filter (fun mv => mv <> (r, c))
      (filter (fun mv => cell board mv = EMPTY) cells).
Proof.
  intros Hset Hv. rewrite list_filter_filter. apply list_filter_iff.
  intros mv. rewrite (cell_set _ _ _ _ _ mv Hset).
  destruct (decide (mv = (r, c))) as [Heq|Hne].
  - split; [intros Hv'; by destruct Hv|intros [Hne _]; by destruct Hne].
  - split; [intros He; by split|by intros [_ He]].
Qed.

Lemma count_after_set board r c v board' :
  wf_board board -> (r, c) ∈ cells -> cell board (r, c) = EMPTY ->
  set board r c v = Ret board' -> v <> EMPTY ->
  S (count_empty board') = count_empty board.
Proof.
  intros Hwf Hin He Hset Hv.
  rewrite !count_empty_filter by eauto using set_wf.
  rewrite (moves_after_set _ _ _ _ _ Hset Hv).
  apply length_filter_ne.
  - apply NoDup_filter, NoDup_cells.
  - by apply list_elem_of_filter.
Qed.

Lemma count_empty_le board : wf_board board -> count_empty board <= 9.
Proof.
  intros Hwf. rewrite count_empty_filter by done.
  etrans; [apply length_filter|done].
Qed.

(** *** [minimax] returns a score and restores the grid *)

(** Each candidate of a loop of [minimax] can be placed, and is evaluated
    by any [rec] that behaves on grids with fewer empty cells. *)
Lemma children_scored (P : Z -> Prop) rec mark board n :
  wf_board board -> mark <> EMPTY -> count_empty board <= n ->
  (forall b, wf_board b -> count_empty b < n ->
             exists s, P s /\ rec b = Ret (Fin s, b)) ->
  Forall (fun mv => exists s, P s /\ child_score rec mark board mv s)
    (filter (fun mv => cell board mv = EMPTY) cells).
Proof.
  intros Hwf Hmark Hn Hrec. apply Forall_forall. intros [r c] Hmv.
  apply list_elem_of_filter in Hmv as [He Hin].
  destruct (proj1 (elem_of_cells r c) Hin) as [Hr Hc].
  destruct (set_total board r c mark Hwf Hr Hc) as [board1 Hset].
  pose proof (count_after_set _ _ _ _ _ Hwf Hin He Hset Hmark) as Hcount.
  destruct (Hrec board1) as (s & Hs & Hm); [by eapply set_wf|lia|].
  exists s. split; [done|]. by exists board1.
Qed.

Lemma empty_moves board :
  Forall (fun mv => cell board mv = EMPTY)
    (filter (fun mv => cell board mv = EMPTY) cells).
Proof. apply Forall_forall. by intros mv [He _]%list_elem_of_filter. Qed.

(** The body of [minimax] on a well-formed board. *)
Lemma minimax_unfold fuel board depth is_maximizing :
  wf_board board ->
  minimax (S fuel) board depth is_maximizing
  = if has_line board COMPUTER then Ret (Fin 1, board)
    else if has_line board HUMAN then Ret (Fin (-1), board)
    else if Nat.eqb (count_empty board) 0 then Ret (Fin 0, board)
    else search_loop
           (fun b => minimax fuel b (depth + 1) (negb is_maximizing))
           (if is_maximizing then COMPUTER else HUMAN)
           (if is_maximizing then score_max else score_min)
           (filter (fun mv => cell board mv = EMPTY) cells) board
           (if is_maximizing then NegInf else PosInf).
Proof.
  intros Hwf. cbn [minimax].
  rewrite !check_winner_pure, is_draw_pure, get_available_moves_filter by done.
  simpl mbind.
  destruct (has_line board COMPUTER); [done|].
  destruct (has_line board HUMAN); [done|]. simpl.
  destruct (Nat.eqb (count_empty board) 0); [done|].
  by destruct is_maximizing.
Qed.

(** A loop of [minimax] over a board with an empty cell, for any [rec] that
    behaves on boards with fewer empty cells: it scores every candidate and
    returns the greatest, or the least, of the scores. *)
Lemma search_loop_scores rec board (is_maximizing : bool) n :
  wf_board board -> count_empty board <= n -> count_empty board <> 0 ->
  (forall b, wf_board b -> count_empty b < n ->
             exists s, unit_score s /\ rec b = Ret (Fin s, b)) ->
  exists scores s,
    Forall2
      (child_score rec (if is_maximizing then COMPUTER else HUMAN) board)
      (filter (fun mv => cell board mv = EMPTY) cells) scores /\
    Forall unit_score scores /\
    search_loop rec
      (if is_maximizing then COMPUTER else HUMAN)
      (if is_maximizing then score_max else score_min)
      (filter (fun mv => cell board mv = EMPTY) cells) board
      (if is_maximizing then NegInf else PosInf)
    = Ret (Fin s, board) /\
    if is_maximizing then is_max_of s scores else is_min_of s scores.
Proof.
  intros Hwf Hn Hne Hrec.
  destruct (search_loop_spec unit_score rec
    (if is_maximizing then COMPUTER else HUMAN)
    (if is_maximizing then score_max else score_min)
    (filter (fun mv => cell board mv = EMPTY) cells) board
    (if is_maximizing then NegInf else PosInf))
    as (scores & Hall & Hunit & Hloop).
  { apply empty_moves. }
  { apply (children_scored _ _ _ _ n); [done| |done|done].
    by destruct is_maximizing. }
  assert (scores <> []) as Hscores.
  { intros ->. apply Forall2_length in Hall.
    rewrite count_empty_filter in Hne by done. by rewrite Hall in Hne. }
  exists scores. rewrite Hloop. destruct is_maximizing.
  - destruct (fold_max_NegInf scores Hscores) as (s & -> & Hmax). by exists s.
  - destruct (fold_min_PosInf scores Hscores) as (s & -> & Hmin). by exists s.
Qed.

(** [minimax] returns a score among -1, 0, 1 and the grid it was given. *)
Lemma minimax_total fuel :
  forall board depth is_maximizing,
    wf_board board -> count_empty board < fuel ->
    exists s, unit_score s /\
              minimax fuel board depth is_maximizing = Ret (Fin s, board).
Proof.
  induction fuel as [|fuel IH]; intros board depth m Hwf Hfuel; [lia|].
  rewrite minimax_unfold by done.
  destruct (has_line board COMPUTER); [exists 1%Z; by unfold unit_score|].
  destruct (has_line board HUMAN); [exists (-1)%Z; by unfold unit_score|].
  destruct (Nat.eqb_spec (count_empty board) 0) as [Hz|Hnz];
    [exists 0%Z; by unfold unit_score|].
  destruct (search_loop_scores
    (fun b => minimax fuel b (depth + 1) (negb m)) board m fuel Hwf)
    as (scores & s & _ & Hunit & Hloop & Hbest); [lia|done| |].
  { intros b Hb Hcount. by apply IH. }
  exists s. split; [|done].
  destruct m; [by eapply is_max_of_range|by eapply is_min_of_range].
Qed.

Lemma search_children fuel board depth is_maximizing :
  wf_board board -> count_empty board <= fuel -> count_empty board <> 0 ->
  exists scores s,
    Forall2
      (child_score (fun b => minimax fuel b depth (negb is_maximizing))
         (if is_maximizing then COMPUTER else HUMAN) board)
      (filter (fun mv => cell board mv = EMPTY) cells) scores /\
    search_loop (fun b => minimax fuel b depth (negb is_maximizing))
      (if is_maximizing then COMPUTER else HUMAN)
      (if is_maximizing then score_max else score_min)
      (filter (fun mv => cell board mv = EMPTY) cells) board
      (if is_maximizing then NegInf else PosInf)
    = Ret (Fin s, board) /\
    if is_maximizing then is_max_of s scores else is_min_of s scores.
Proof.
  intros Hwf Hfuel Hne.
  destruct (search_loop_scores
    (fun b => minimax fuel b depth (negb is_maximizing))
    board is_maximizing fuel Hwf Hfuel Hne)
    as (scores & s & Hall & _ & Hloop & Hbest).
  { intros. by apply minimax_total. }
  by exists scores, s.
Qed.

End Search.

Section BestMove.

Implicit Types (board : Grid) (mv : Move).

Lemma best_loop_spec fuel moves scores board best_move best_score :
  Forall (fun mv => cell board mv = EMPTY) moves ->
  Forall2 (child_score (fun b => minimax fuel b 0 false) COMPUTER board)
    moves scores ->
  best_loop fuel moves board best_move best_score
  = Ret (track moves scores best_move best_score, board).
Proof.
  intros Hempty Hall. revert best_move best_score.
  induction Hall as [|[row col] s moves scores (board1 & Hset & Hr) _ IH];
    intros best_move best_score; [done|].
  apply Forall_cons in Hempty as [He Hempty].
  simpl in Hset. simpl. rewrite Hset. simpl. rewrite Hr. simpl.
  pose proof (set_undo _ _ _ _ _ Hset) as Hundo.
  rewrite He in Hundo. rewrite Hundo. simpl.
  destruct (score_ltb best_score (Fin s)); by apply IH.
Qed.

(** With a tracked move of score [s0], the loop keeps it unless a later
    score is strictly greater; then it ends on the first position of the
    greatest score. *)
Lemma track_from (moves : list Move) (scores : list Z) :
  length moves = length scores ->
  forall mv0 s0,
    (track moves scores (Some mv0) (Fin s0) = Some mv0 /\
     Forall (fun x => (x <= s0)%Z) scores) \/
    (exists i mv,
       track moves scores (Some mv0) (Fin s0) = Some mv /\
       moves !! i = Some mv /\
       first_max_at i scores /\
       Exists (fun x => (s0 < x)%Z) scores).
Proof.
  revert scores.
  induction moves as [|mv1 moves IH]; intros [|s1 scores] Hlen mv0 s0;
    try discriminate Hlen.
  - left. by split.
  - injection Hlen as Hlen. cbn [track score_ltb].
    destruct (Z.ltb_spec s0 s1) as [Hlt|Hge].
    + right. destruct (IH scores Hlen mv1 s1)
        as [[Hkeep Hall]
           |(i & mv & Htr & Hmv & (s & Hs & Hall & Hbefore) & Hex)].
      * exists 0, mv1. split; [done|]. split; [done|]. split.
        -- exists s1. split; [done|]. split; [by constructor|].
           intros j x Hj. lia.
        -- by left.
      * exists (S i), mv. split; [done|]. split; [done|].
        assert (s1 < s)%Z as Hs1.
        { apply Exists_exists in Hex as (x & Hx & Hlx).
          eapply Forall_forall in Hall; [|exact Hx]. lia. }
        split.
        -- exists s. split; [done|]. split; [constructor; [lia|done]|].
           intros [|j] x Hj Hx.
           ++ injection Hx as <-. done.
           ++ apply (Hbefore j); [lia|done].
        -- by left.
    + destruct (IH scores Hlen mv0 s0)
        as [[Hkeep Hall]
           |(i & mv & Htr & Hmv & (s & Hs & Hall & Hbefore) & Hex)].
      * left. split; [done|]. by constructor.
      * right. exists (S i), mv. split; [done|]. split; [done|].
        assert (s0 < s)%Z as Hs0.
        { apply Exists_exists in Hex as (x & Hx & Hlx).
          eapply Forall_forall in Hall; [|exact Hx]. lia. }
        split.
        -- exists s. split; [done|]. split; [constructor; [lia|done]|].
           intros [|j] x Hj Hx.
           ++ injection Hx as <-. lia.
           ++ apply (Hbefore j); [lia|done].
        -- by right.
Qed.

Lemma track_first_max (moves : list Move) (scores : list Z) :
  length moves = length scores -> moves <> [] ->
  exists i mv,
    track moves scores None NegInf = Some mv /\
    moves !! i = Some mv /\ first_max_at i scores.
Proof.
  destruct moves as [|mv1 moves]; [done|].
  destruct scores as [|s1 scores]; [done|].
  intros [= Hlen] _. cbn [track score_ltb].
  destruct (track_from moves scores Hlen mv1 s1)
    as [[Hkeep Hall]|(i & mv & Htr & Hmv & (s & Hs & Hall & Hbefore) & Hex)].
  - exists 0, mv1. split; [done|]. split; [done|].
    exists s1. split; [done|]. split; [by constructor|]. intros j x Hj. lia.
  - exists (S i), mv. split; [done|]. split; [done|].
    assert (s1 < s)%Z as Hs1.
    { apply Exists_exists in Hex as (x & Hx & Hlx).
      eapply Forall_forall in Hall; [|exact Hx]. lia. }
    exists s. split; [done|]. split; [constructor; [lia|done]|].
    intros [|j] x Hj Hx.
    + injection Hx as <-. done.
    + apply (Hbefore j); [lia|done].
Qed.

(** [find_best_move] on a well-formed board. *)
Lemma find_best_move_spec board fuel :
  wf_board board -> count_empty board <= fuel ->
  exists moves,
    get_available_moves board = Ret moves /\
    ((moves = [] /\ find_best_move fuel board = Ret (None, board)) \/
     (moves <> [] /\
      exists scores i mv,
        Forall2 (child_score (fun b => minimax fuel b 0 false) COMPUTER board)
          moves scores /\
        find_best_move fuel board = Ret (Some mv, board) /\
        moves !! i = Some mv /\ first_max_at i scores)).
Proof.
  intros Hwf Hfuel. eexists. split; [by apply get_available_moves_filter|].
  unfold find_best_move. rewrite get_available_moves_filter by done.
  simpl mbind.
  destruct (filter (fun mv => cell board mv = EMPTY) cells)
    as [|mv0 moves] eqn:Hmoves; [left; by split|].
  right. split; [done|]. rewrite <- Hmoves.
  destruct (search_loop_spec unit_score
    (fun b => minimax fuel b 0 false) COMPUTER score_max
    (filter (fun mv => cell board mv = EMPTY) cells) board NegInf)
    as (scores & Hall & _ & _).
  { apply empty_moves. }
  { apply (children_scored _ _ _ _ fuel); [done|done|done|].
    intros. by apply minimax_total. }
  destruct (track_first_max _ scores (Forall2_length _ _ _ Hall))
    as (i & mv & Htr & Hmv & Hfirst); [by rewrite Hmoves|].
  exists scores, i, mv. split; [done|]. split; [|done].
  rewrite Hmoves at 1. rewrite <- Hmoves.
  rewrite (best_loop_spec _ _ scores); [by rewrite Htr|apply empty_moves|done].
Qed.

End BestMove.

(** ** The board queries *)

Section Queries.

Implicit Types (board : Grid) (mv : Move).

Lemma wf_sample_board : wf_board sample_board.
Proof. split; [reflexivity|]. repeat constructor. Qed.

Lemma get_in_range board r c v :
  wf_board board -> get board r c = Ret v -> r < 3 /\ c < 3.
Proof.
  intros [Hl Hr] Hget. unfold get in Hget.
  destruct (board !! r) as [row|] eqn:Hrow; [|discriminate].
  destruct (row !! c) as [x|] eqn:Hx; [|discriminate].
  apply lookup_lt_Some in Hrow as Hlr. apply lookup_lt_Some in Hx.
  eapply Forall_lookup_1 in Hr; [|exact Hrow]. simpl in Hr. lia.
Qed.

Lemma get_empty_iff board mv :
  wf_board board -> mv ∈ cells ->
  get board mv.1 mv.2 = Ret EMPTY <-> cell board mv = EMPTY.
Proof.
  intros Hwf Hin. destruct mv as [r c].
  apply elem_of_cells in Hin as [Hr Hc]. simpl.
  rewrite (get_cell _ _ _ Hwf Hr Hc). split; [by intros [= ->]|by intros ->].
Qed.

Lemma filter_ext_in {A} (P Q : A -> Prop) `{!forall x, Decision (P x)}
    `{!forall x, Decision (Q x)} (l : list A) :
  (forall x, x ∈ l -> P x <-> Q x) -> filter P l = filter Q l.
Proof.
  induction l as [|x l IH]; intros Hext; [done|].
  rewrite !filter_cons, IH by (intros y Hy; apply Hext; by right).
  apply decide_ext, Hext. by left.
Qed.

Lemma moves_nil_iff board :
  wf_board board ->
  filter (fun mv => cell board mv = EMPTY) cells = [] <->
  forall row col, row < 3 -> col < 3 -> get board row col <> Ret EMPTY.
Proof.
  intros Hwf. split.
  - intros Hnil row col Hr Hc Hget.
    rewrite (get_cell _ _ _ Hwf Hr Hc) in Hget. injection Hget as He.
    assert ((row, col) ∈ filter (fun mv => cell board mv = EMPTY) cells)
      as Hin.
    { apply list_elem_of_filter. split; [done|by apply elem_of_cells]. }
    rewrite Hnil in Hin. by apply elem_of_nil in Hin.
  - intros Hfull.
    destruct (filter (fun mv => cell board mv = EMPTY) cells)
      as [|[r c] moves] eqn:Hmoves; [done|].
    assert ((r, c) ∈ filter (fun mv => cell board mv = EMPTY) cells)
      as [He [Hr Hc]%elem_of_cells]%list_elem_of_filter
      by (rewrite Hmoves; left).
    destruct (Hfull r c Hr Hc). rewrite (get_cell _ _ _ Hwf Hr Hc).
    by rewrite He.
Qed.

Lemma line_full_iff board player line :
  wf_board board -> Forall (fun mv => mv ∈ cells) line ->
  line_full board player line = true <->
  forall row col, (row, col) ∈ line -> get board row col = Ret player.
Proof.
  intros Hwf Hline. unfold line_full. rewrite forallb_forall. split.
  - intros Hall row col Hin.
    eapply Forall_forall in Hline as [Hr Hc]%elem_of_cells; [|exact Hin].
    rewrite (get_cell _ _ _ Hwf Hr Hc). f_equal.
    apply String.eqb_eq, Hall. by apply list_elem_of_In.
  - intros Hall [row col] Hin%list_elem_of_In.
    eapply Forall_forall in Hline as [Hr Hc]%elem_of_cells; [|exact Hin].
    specialize (Hall row col Hin).
    rewrite (get_cell _ _ _ Hwf Hr Hc) in Hall. injection Hall as ->.
    apply String.eqb_refl.
Qed.

Lemma has_line_iff board player :
  wf_board board ->
  has_line board player = true <->
  exists line, line ∈ lines /\
    forall row col, (row, col) ∈ line -> get board row col = Ret player.
Proof.
  intros Hwf. unfold has_line. rewrite existsb_exists. split.
  - intros (line & Hin%list_elem_of_In & Hfull). exists line. split; [done|].
    apply line_full_iff; [done| |done].
    eapply Forall_forall in Hin; [exact Hin|apply lines_in_grid].
  - intros (line & Hin & Hall). exists line.
    split; [by apply list_elem_of_In|].
    apply line_full_iff; [done| |done].
    eapply Forall_forall in Hin; [exact Hin|apply lines_in_grid].
Qed.

End Queries.

(** ** What the board queries return *)

(** C3, as stated, fails: on the all-empty board every line holds the empty
    string three times, so [check_winner('')] is [True]. *)
Lemma check_winner_empty_mark_on_new_board :
  check_winner new_board EMPTY = Ret true /\
  ~ (forall board, wf_board board -> check_winner board EMPTY = Ret false).
Proof.
  split; [reflexivity|]. intros H.
  specialize (H new_board wf_new_board). discriminate H.
Qed.

(** C3, amended: [check_winner] called with the EMPTY mark [''] returns
    [True] exactly when some row, column or diagonal holds three EMPTY cells,
    and [False] otherwise; it returns [False] on every board without an EMPTY
    cell, and [True] on the all-empty board. *)
Theorem check_winner_empty_mark board :
  wf_board board ->
  exists w,
    check_winner board EMPTY = Ret w /\
    (w = true <->
     exists line, line ∈ lines /\
       forall row col, (row, col) ∈ line -> get board row col = Ret EMPTY) /\
    (get_available_moves board = Ret [] -> w = false) /\
    check_winner new_board EMPTY = Ret true.
Proof.
  intros Hwf. exists (has_line board EMPTY).
  split; [by apply check_winner_pure|].
  split; [by apply has_line_iff|]. split; [|reflexivity].
  rewrite get_available_moves_filter by done. intros [= Hnil].
  apply not_true_is_false. intros (line & Hin & Hall)%has_line_iff; [|done].
  pose proof lines_in_grid as Hgrid.
  eapply Forall_forall in Hgrid; [|exact Hin].
  assert (exists mv, mv ∈ line) as [[r c] Hmv].
  { unfold lines, row_lines, col_lines, main_diagonal, anti_diagonal in Hin.
    simpl in Hin. repeat (apply elem_of_cons in Hin as [->|Hin];
      [eexists; left|]). by apply elem_of_nil in Hin. }
  eapply Forall_forall in Hgrid as Hcell; [|exact Hmv].
  apply elem_of_cells in Hcell as [Hr Hc].
  apply (proj1 (moves_nil_iff board Hwf) Hnil r c Hr Hc). by apply Hall.
Qed.

Lemma check_winner_empty_mark_witness :
  wf_board sample_board /\
  exists w,
    check_winner sample_board EMPTY = Ret w /\
    (w = true <->
     exists line, line ∈ lines /\
       forall row col,
         (row, col) ∈ line -> get sample_board row col = Ret EMPTY) /\
    (get_available_moves sample_board = Ret [] -> w = false) /\
    check_winner new_board EMPTY = Ret true.
Proof.
  split; [exact wf_sample_board|].
  apply (check_winner_empty_mark sample_board). exact wf_sample_board.
Defined.

(** C4: [is_draw()] is [True] if and only if neither [check_winner('X')] nor
    [check_winner('O')] is [True] and [get_available_moves()] is empty, which
    is to say no cell is EMPTY; so a full board with a winner is not a draw,
    and the all-empty board is not a draw. *)
Theorem is_draw_iff board :
  wf_board board ->
  exists (d x o : bool) (moves : list Move),
    is_draw board = Ret d /\
    check_winner board HUMAN = Ret x /\
    check_winner board COMPUTER = Ret o /\
    get_available_moves board = Ret moves /\
    (d = true <-> x = false /\ o = false /\ moves = []) /\
    (moves = [] <->
     forall row col, row < 3 -> col < 3 -> get board row col <> Ret EMPTY) /\
    (moves = [] -> x = true \/ o = true -> d = false) /\
    is_draw new_board = Ret false.
Proof.
  intros Hwf.
  exists (negb (has_line board HUMAN) && negb (has_line board COMPUTER)
          && Nat.eqb (count_empty board) 0),
    (has_line board HUMAN), (has_line board COMPUTER),
    (filter (fun mv => cell board mv = EMPTY) cells).
  split; [by apply is_draw_pure|].
  split; [by apply check_winner_pure|].
  split; [by apply check_winner_pure|].
  split; [by apply get_available_moves_filter|].
  rewrite count_empty_filter by done.
  split; [|split; [by apply moves_nil_iff|split; [|reflexivity]]].
  - rewrite !andb_true_iff, !negb_true_iff, Nat.eqb_eq.
    split.
    + intros [[Hx Ho] Hlen]. by apply nil_length_inv in Hlen.
    + intros (Hx & Ho & ->). done.
  - intros _ [->| ->]; [done|]. by rewrite andb_false_r.
Qed.

Lemma is_draw_iff_witness :
  wf_board sample_board /\
  exists (d x o : bool) (moves : list Move),
    is_draw sample_board = Ret d /\
    check_winner sample_board HUMAN = Ret x /\
    check_winner sample_board COMPUTER = Ret o /\
    get_available_moves sample_board = Ret moves /\
    (d = true <-> x = false /\ o = false /\ moves = []) /\
    (moves = [] <->
     forall row col,
       row < 3 -> col < 3 -> get sample_board row col <> Ret EMPTY) /\
    (moves = [] -> x = true \/ o = true -> d = false) /\
    is_draw new_board = Ret false.
Proof.
  split; [exact wf_sample_board|].
  apply (is_draw_iff sample_board). exact wf_sample_board.
Defined.

(** C5: [get_available_moves()] returns the coordinates of the cells that are
    EMPTY in the grid it is called on, and no others, each once, in row-major
    order: the list (0,0), (0,1), (0,2), (1,0), ..., (2,2) restricted to the
    EMPTY cells.  It is computed from the grid as it is at the call: after a
    cell is written, the next call answers for the new grid. *)
Theorem get_available_moves_row_major board :
  wf_board board ->
  exists moves,
    get_available_moves board = Ret moves /\
    moves = filter (fun mv => get board mv.1 mv.2 = Ret EMPTY)
              [(0, 0); (0, 1); (0, 2); (1, 0); (1, 1); (1, 2);
               (2, 0); (2, 1); (2, 2)] /\
    (forall row col, (row, col) ∈ moves <-> get board row col = Ret EMPTY) /\
    NoDup moves /\
    (forall row col v board',
       set board row col v = Ret board' ->
       exists moves',
         get_available_moves board' = Ret moves' /\
         forall r c, (r, c) ∈ moves' <-> get board' r c = Ret EMPTY).
Proof.
  assert (forall b, wf_board b -> forall row col,
    (row, col) ∈ filter (fun mv => cell b mv = EMPTY) cells
    <-> get b row col = Ret EMPTY) as Hmem.
  { intros b Hb row col. rewrite list_elem_of_filter. split.
    - intros [He Hin]. by apply (get_empty_iff b (row, col)).
    - intros Hget. pose proof (get_in_range _ _ _ _ Hb Hget) as Hrange.
      apply elem_of_cells in Hrange. split; [|done].
      by apply (get_empty_iff b (row, col)). }
  intros Hwf. exists (filter (fun mv => cell board mv = EMPTY) cells).
  split; [by apply get_available_moves_filter|].
  split; [|split; [by apply Hmem|split]].
  - change [(0, 0); (0, 1); (0, 2); (1, 0); (1, 1); (1, 2);
            (2, 0); (2, 1); (2, 2)] with cells.
    apply filter_ext_in. intros mv Hin. symmetry. by apply get_empty_iff.
  - apply NoDup_filter, NoDup_cells.
  - intros row col v board' Hset.
    assert (wf_board board') as Hwf' by (by eapply set_wf).
    exists (filter (fun mv => cell board' mv = EMPTY) cells).
    split; [by apply get_available_moves_filter|by apply Hmem].
Qed.

Lemma get_available_moves_row_major_witness :
  wf_board sample_board /\
  exists moves,
    get_available_moves sample_board = Ret moves /\
    moves = filter (fun mv => get sample_board mv.1 mv.2 = Ret EMPTY)
              [(0, 0); (0, 1); (0, 2); (1, 0); (1, 1); (1, 2);
               (2, 0); (2, 1); (2, 2)] /\
    (forall row col,
       (row, col) ∈ moves <-> get sample_board row col = Ret EMPTY) /\
    NoDup moves /\
    (forall row col v board',
       set sample_board row col v = Ret board' ->
       exists moves',
         get_available_moves board' = Ret moves' /\
         forall r c, (r, c) ∈ moves' <-> get board' r c = Ret EMPTY).
Proof.
  split; [exact wf_sample_board|].
  apply (get_available_moves_row_major sample_board). exact wf_sample_board.
Defined.

(** ** What the search returns *)

(** C2: [minimax] returns +1 if COMPUTER has won, else -1 if HUMAN has won,
    else 0 if the board is a draw; on any other board it returns the greatest
    (when maximizing, with 'O' placed) or the least (when minimizing, with 'X'
    placed) of the scores of its recursive calls, made with the opposite flag
    on every available move. *)
Theorem minimax_value board depth is_maximizing fuel :
  wf_board board -> count_empty board < fuel ->
  exists (s : Z) (o x d : bool),
    minimax fuel board depth is_maximizing = Ret (Fin s, board) /\
    check_winner board COMPUTER = Ret o /\
    check_winner board HUMAN = Ret x /\
    is_draw board = Ret d /\
    if o then s = 1%Z else
    if x then s = (-1)%Z else
    if d then s = 0%Z else
    exists moves scores,
      get_available_moves board = Ret moves /\
      Forall2
        (child_score
           (fun b => minimax (fuel - 1) b (depth + 1) (negb is_maximizing))
           (if is_maximizing then COMPUTER else HUMAN) board)
        moves scores /\
      if is_maximizing then is_max_of s scores else is_min_of s scores.
Proof.
  intros Hwf Hfuel. destruct fuel as [|fuel]; [lia|].
  replace (S fuel - 1) with fuel by lia.
  rewrite minimax_unfold, !check_winner_pure, is_draw_pure by done.
  destruct (has_line board COMPUTER) eqn:Ho.
  { exists 1%Z, true, (has_line board HUMAN), false. by rewrite andb_false_r. }
  destruct (has_line board HUMAN) eqn:Hx.
  { by exists (-1)%Z, false, true, false. }
  simpl. destruct (Nat.eqb_spec (count_empty board) 0) as [Hz|Hnz].
  { by exists 0%Z, false, false, true. }
  destruct (search_children fuel board (depth + 1) is_maximizing Hwf)
    as (scores & s & Hall & Hloop & Hbest); [lia|done|].
  exists s, false, false, false. repeat (split; [done|]).
  exists (filter (fun mv => cell board mv = EMPTY) cells), scores.
  split; [by apply get_available_moves_filter|]. by split.
Qed.

Lemma minimax_value_witness :
  wf_board sample_board /\ count_empty sample_board < 10 /\
  exists (s : Z) (o x d : bool),
    minimax 10 sample_board 0 true = Ret (Fin s, sample_board) /\
    check_winner sample_board COMPUTER = Ret o /\
    check_winner sample_board HUMAN = Ret x /\
    is_draw sample_board = Ret d /\
    if o then s = 1%Z else
    if x then s = (-1)%Z else
    if d then s = 0%Z else
    exists moves scores,
      get_available_moves sample_board = Ret moves /\
      Forall2
        (child_score (fun b => minimax (10 - 1) b (0 + 1) (negb true))
           COMPUTER sample_board)
        moves scores /\
      is_max_of s scores.
Proof.
  split; [exact wf_sample_board|]. split; [vm_compute; lia|].
  apply (minimax_value sample_board 0 true 10);
    [exact wf_sample_board|vm_compute; lia].
Defined.

(** C6: [find_best_move] returns [None] if and only if
    [get_available_moves()] is empty; it returns (no exception is raised) in
    both cases, and when a move is available it returns one of them. *)
Theorem find_best_move_none_iff board fuel :
  wf_board board -> count_empty board <= fuel ->
  exists moves best,
    get_available_moves board = Ret moves /\
    find_best_move fuel board = Ret (best, board) /\
    (best = None <-> moves = []) /\
    (moves <> [] ->
     exists row col, best = Some (row, col) /\ (row, col) ∈ moves).
Proof.
  intros Hwf Hfuel.
  destruct (find_best_move_spec board fuel Hwf Hfuel)
    as (moves & Hmoves &
        [[-> Hfind]|(Hne & scores & i & mv & _ & Hfind & Hmv & _)]).
  - exists [], None. by repeat split.
  - exists moves, (Some mv). split; [done|]. split; [done|]. split; [by split|].
    intros _. destruct mv as [row col]. exists row, col. split; [done|].
    by eapply list_elem_of_lookup_2.
Qed.

Lemma find_best_move_none_iff_witness :
  wf_board sample_board /\ count_empty sample_board <= 10 /\
  exists moves best,
    get_available_moves sample_board = Ret moves /\
    find_best_move 10 sample_board = Ret (best, sample_board) /\
    (best = None <-> moves = []) /\
    (moves <> [] ->
     exists row col, best = Some (row, col) /\ (row, col) ∈ moves).
Proof.
  split; [exact wf_sample_board|]. split; [vm_compute; lia|].
  apply (find_best_move_none_iff sample_board 10);
    [exact wf_sample_board|vm_compute; lia].
Defined.

(** C7: with at least one available move, [find_best_move] returns the first
    move, in the order of [get_available_moves()], whose score (that of
    [minimax] with [is_maximizing = False] once 'O' is placed on it) is the
    greatest: every earlier move has a strictly smaller score, so a later move
    of equal score never replaces it. *)
Theorem find_best_move_first_max board fuel moves :
  wf_board board -> count_empty board <= fuel ->
  get_available_moves board = Ret moves -> moves <> [] ->
  exists scores i mv,
    Forall2 (child_score (fun b => minimax fuel b 0 false) COMPUTER board)
      moves scores /\
    find_best_move fuel board = Ret (Some mv, board) /\
    moves !! i = Some mv /\
    first_max_at i scores.
Proof.
  intros Hwf Hfuel Hmoves Hne.
  destruct (find_best_move_spec board fuel Hwf Hfuel)
    as (moves' & Hmoves' & [[-> _]|(_ & Hfind)]).
  - congruence.
  - rewrite Hmoves in Hmoves'. by injection Hmoves' as <-.
Qed.

Lemma find_best_move_first_max_witness :
  wf_board sample_board /\ count_empty sample_board <= 10 /\
  get_available_moves sample_board
  = Ret [(0, 2); (1, 1); (1, 2); (2, 0); (2, 1); (2, 2)] /\
  [(0, 2); (1, 1); (1, 2); (2, 0); (2, 1); (2, 2)] <> [] /\
  exists scores i mv,
    Forall2 (child_score (fun b => minimax 10 b 0 false) COMPUTER sample_board)
      [(0, 2); (1, 1); (1, 2); (2, 0); (2, 1); (2, 2)] scores /\
    find_best_move 10 sample_board = Ret (Some mv, sample_board) /\
    [(0, 2); (1, 1); (1, 2); (2, 0); (2, 1); (2, 2)] !! i = Some mv /\
    first_max_at i scores.
Proof.
  split; [exact wf_sample_board|]. split; [vm_compute; lia|].
  split; [reflexivity|]. split; [discriminate|].
  apply (find_best_move_first_max sample_board 10);
    [exact wf_sample_board|vm_compute; lia|reflexivity|discriminate].
Defined.

(** ** The recursion budget *)

Section Fuel.

Implicit Types (board : Grid) (fuel : nat).

Lemma search_loop_mono rec1 rec2 mark pick moves board best r :
  (forall b r', rec1 b = Ret r' -> rec2 b = Ret r') ->
  search_loop rec1 mark pick moves board best = Ret r ->
  search_loop rec2 mark pick moves board best = Ret r.
Proof.
  intros Hrec. revert board best.
  induction moves as [|[row col] moves IH]; intros board best; [done|].
  simpl. destruct (set board row col mark) as [board1| |]; simpl; try done.
  destruct (rec1 board1) as [[score board2]| |] eqn:H1; simpl; try done.
  rewrite (Hrec _ _ H1). simpl.
  destruct (set board2 row col EMPTY) as [board3| |]; simpl; try done.
  apply IH.
Qed.

(** A result obtained within a budget is the result within any larger
    one. *)
Lemma minimax_fuel_mono fuel :
  forall fuel' board depth is_maximizing r,
    fuel <= fuel' ->
    minimax fuel board depth is_maximizing = Ret r ->
    minimax fuel' board depth is_maximizing = Ret r.
Proof.
  induction fuel as [|fuel IH]; intros fuel' board depth m r Hle; [done|].
  destruct fuel' as [|fuel']; [lia|]. cbn [minimax].
  destruct (check_winner board COMPUTER) as [[|]| |]; simpl; try done.
  destruct (check_winner board HUMAN) as [[|]| |]; simpl; try done.
  destruct (is_draw board) as [[|]| |]; simpl; try done.
  destruct m; (destruct (get_available_moves board) as [moves| |]; simpl;
    [|done|done]); apply search_loop_mono; intros b r'; apply IH; lia.
Qed.

Lemma best_loop_mono fuel fuel' moves board best_move best_score r :
  fuel <= fuel' ->
  best_loop fuel moves board best_move best_score = Ret r ->
  best_loop fuel' moves board best_move best_score = Ret r.
Proof.
  intros Hle. revert board best_move best_score.
  induction moves as [|[row col] moves IH];
    intros board best_move best_score; [done|].
  simpl. destruct (set board row col COMPUTER) as [board1| |]; simpl; try done.
  destruct (minimax fuel board1 0 false) as [[score board2]| |] eqn:H1;
    simpl; try done.
  rewrite (minimax_fuel_mono _ _ _ _ _ _ Hle H1). simpl.
  destruct (set board2 row col EMPTY) as [board3| |]; simpl; try done.
  destruct (score_ltb best_score score); apply IH.
Qed.

Lemma find_best_move_fuel_mono fuel fuel' board r :
  fuel <= fuel' ->
  find_best_move fuel board = Ret r -> find_best_move fuel' board = Ret r.
Proof.
  intros Hle. unfold find_best_move.
  destruct (get_available_moves board) as [[|mv moves]| |];
    cbn [mbind Res_bind]; try done.
  by apply best_loop_mono.
Qed.

End Fuel.

(** C8: when [minimax] returns, and when [find_best_move] returns, the grid
    equals the grid before the call; so a second call of [minimax], made on
    the grid the first call leaves, returns the same score. *)
Theorem search_restores_board board depth is_maximizing fuel :
  wf_board board -> count_empty board < fuel ->
  (exists s,
     minimax fuel board depth is_maximizing = Ret (s, board) /\
     ('(s1, board1) ← minimax fuel board depth is_maximizing;
      '(s2, board2) ← minimax fuel board1 depth is_maximizing;
      Ret (s1, s2, board2)) = Ret (s, s, board)) /\
  (exists best, find_best_move fuel board = Ret (best, board)).
Proof.
  intros Hwf Hfuel. split.
  - destruct (minimax_total fuel board depth is_maximizing Hwf Hfuel)
      as (s & _ & Hm).
    exists (Fin s). split; [done|]. rewrite Hm. simpl. by rewrite Hm.
  - destruct (find_best_move_spec board fuel Hwf)
      as (moves & _ & [[_ Hf]|(_ & _ & _ & mv & _ & Hf & _)]); [lia| |].
    + by exists None.
    + by exists (Some mv).
Qed.

Lemma search_restores_board_witness :
  wf_board sample_board /\ count_empty sample_board < 10 /\
  (exists s,
     minimax 10 sample_board 0 false = Ret (s, sample_board) /\
     ('(s1, board1) ← minimax 10 sample_board 0 false;
      '(s2, board2) ← minimax 10 board1 0 false;
      Ret (s1, s2, board2)) = Ret (s, s, sample_board)) /\
  (exists best, find_best_move 10 sample_board = Ret (best, sample_board)).
Proof.
  split; [exact wf_sample_board|]. split; [vm_compute; lia|].
  apply (search_restores_board sample_board 0 false 10);
    [exact wf_sample_board|vm_compute; lia].
Defined.

(** C9: [minimax] terminates on every board: a board has at most 9 EMPTY
    cells, every recursive call is made on a board with exactly one EMPTY cell
    fewer, and any recursion budget above the number of EMPTY cells lets the
    call return its result. *)
Theorem minimax_terminates board depth is_maximizing :
  wf_board board ->
  count_empty board <= 9 /\
  (forall moves row col mark,
     get_available_moves board = Ret moves -> (row, col) ∈ moves ->
     mark = COMPUTER \/ mark = HUMAN ->
     exists board1,
       set board row col mark = Ret board1 /\ wf_board board1 /\
       S (count_empty board1) = count_empty board) /\
  (exists r, forall fuel,
     count_empty board < fuel ->
     minimax fuel board depth is_maximizing = Ret r).
Proof.
  intros Hwf. split; [by apply count_empty_le|]. split.
  - intros moves row col mark Hmoves Hin Hmark.
    rewrite get_available_moves_filter in Hmoves by done.
    injection Hmoves as <-.
    apply list_elem_of_filter in Hin as [He Hin].
    destruct (proj1 (elem_of_cells row col) Hin) as [Hr Hc].
    destruct (set_total board row col mark Hwf Hr Hc) as [board1 Hset].
    exists board1. split; [done|]. split; [by eapply set_wf|].
    eapply count_after_set; [done|done|done|exact Hset|].
    by destruct Hmark as [-> | ->].
  - destruct (minimax_total (S (count_empty board)) board depth is_maximizing
                Hwf) as (s & _ & Hm); [lia|].
    exists (Fin s, board). intros fuel Hfuel.
    eapply minimax_fuel_mono; [|exact Hm]. lia.
Qed.

Lemma minimax_terminates_witness :
  wf_board sample_board /\
  count_empty sample_board <= 9 /\
  (forall moves row col mark,
     get_available_moves sample_board = Ret moves -> (row, col) ∈ moves ->
     mark = COMPUTER \/ mark = HUMAN ->
     exists board1,
       set sample_board row col mark = Ret board1 /\ wf_board board1 /\
       S (count_empty board1) = count_empty sample_board) /\
  (exists r, forall fuel,
     count_empty sample_board < fuel ->
     minimax fuel sample_board 0 true = Ret r).
Proof.
  split; [exact wf_sample_board|].
  apply (minimax_terminates sample_board 0 true). exact wf_sample_board.
Defined.

(** C10: the result of [minimax] does not depend on [depth]. *)
Theorem minimax_depth_irrelevant fuel :
  forall board (d1 d2 : Z) is_maximizing,
    minimax fuel board d1 is_maximizing = minimax fuel board d2 is_maximizing.
Proof.
  induction fuel as [|fuel IH]; intros board d1 d2 m; [done|].
  cbn [minimax].
  destruct (check_winner board COMPUTER) as [[|]| |]; simpl; try done.
  destruct (check_winner board HUMAN) as [[|]| |]; simpl; try done.
  destruct (is_draw board) as [[|]| |]; simpl; try done.
  destruct m; (destruct (get_available_moves board) as [moves| |]; simpl;
    [|done|done]); apply search_loop_ext; intros b; apply IH.
Qed.

(** ** The value of a board *)

Section Value.

Implicit Types (board : Grid) (mv : Move) (s : Z).

Lemma minimax_at_depth_0 fuel :
  forall board depth is_maximizing,
    minimax fuel board depth is_maximizing
    = minimax fuel board 0 is_maximizing.
Proof.
  induction fuel as [|fuel IH]; intros board depth m; [done|].
  cbn [minimax].
  destruct (check_winner board COMPUTER) as [[|]| |]; simpl; try done.
  destruct (check_winner board HUMAN) as [[|]| |]; simpl; try done.
  destruct (is_draw board) as [[|]| |]; simpl; try done.
  destruct m; (destruct (get_available_moves board) as [moves| |]; simpl;
    [|done|done]); apply search_loop_ext; intros b;
    by rewrite (IH b (depth + 1)%Z), (IH b (0 + 1)%Z).
Qed.

Lemma value_exists board is_maximizing :
  wf_board board ->
  exists s, unit_score s /\ value_is board is_maximizing s.
Proof.
  intros Hwf.
  destruct (minimax_total (S (count_empty board)) board 0 is_maximizing Hwf)
    as (s & Hs & Hm); [lia|].
  exists s. split; [done|]. intros fuel depth Hfuel.
  rewrite minimax_at_depth_0. eapply minimax_fuel_mono; [|exact Hm]. lia.
Qed.

Lemma value_unique board is_maximizing s s' :
  value_is board is_maximizing s -> value_is board is_maximizing s' -> s = s'.
Proof.
  intros H1 H2.
  specialize (H1 (S (count_empty board)) 0%Z (Nat.lt_succ_diag_r _)).
  specialize (H2 (S (count_empty board)) 0%Z (Nat.lt_succ_diag_r _)).
  rewrite H1 in H2. by injection H2.
Qed.

Lemma Forall2_impl_elem {A B} (R R' : A -> B -> Prop)
    (l : list A) (k : list B) :
  Forall2 R l k -> (forall x y, x ∈ l -> R x y -> R' x y) -> Forall2 R' l k.
Proof.
  induction 1 as [|x y l k HR _ IH]; intros Himpl; constructor.
  - apply Himpl; [left|done].
  - apply IH. intros x' y' Hin. apply Himpl. by right.
Qed.

Lemma Forall2_agree {A B} (R R' : A -> B -> Prop)
    (l : list A) (k k' : list B) :
  Forall2 R l k -> Forall2 R' l k' ->
  (forall x y y', x ∈ l -> R x y -> R' x y' -> y = y') -> k = k'.
Proof.
  intros HR. revert k'.
  induction HR as [|x y l k Hxy _ IH]; intros k' HR' Hagree;
    inversion HR' as [|? y' ? k'' Hxy' HR'']; subst; [done|].
  f_equal.
  - eapply Hagree; [left|done|done].
  - apply IH; [done|]. intros x' z z' Hin. apply Hagree. by right.
Qed.

(** The candidates of a loop of [minimax] are scored by their values. *)
Lemma child_score_value fuel depth board is_maximizing mv s :
  wf_board board ->
  mv ∈ filter (fun mv => cell board mv = EMPTY) cells ->
  count_empty board <= fuel ->
  child_score (fun b => minimax fuel b depth (negb is_maximizing))
    (if is_maximizing then COMPUTER else HUMAN) board mv s ->
  child_value board is_maximizing mv s.
Proof.
  intros Hwf [He Hin]%list_elem_of_filter Hfuel (board1 & Hset & Hrec).
  destruct mv as [r c]. simpl in Hset.
  assert (wf_board board1) as Hwf1 by (by eapply set_wf).
  assert (S (count_empty board1) = count_empty board) as Hcount.
  { eapply count_after_set; [done|done|done|exact Hset|].
    by destruct is_maximizing. }
  exists board1. split; [done|]. split; [done|].
  destruct (value_exists board1 (negb is_maximizing) Hwf1) as (x & _ & Hx).
  rewrite (Hx fuel depth) in Hrec by lia. by injection Hrec as ->.
Qed.

(** The four cases of [minimax], on values. *)
Lemma value_cases board is_maximizing s :
  wf_board board -> value_is board is_maximizing s ->
  (has_line board COMPUTER = true -> s = 1%Z) /\
  (has_line board COMPUTER = false -> has_line board HUMAN = true ->
   s = (-1)%Z) /\
  (has_line board COMPUTER = false -> has_line board HUMAN = false ->
   count_empty board = 0 -> s = 0%Z) /\
  (has_line board COMPUTER = false -> has_line board HUMAN = false ->
   count_empty board <> 0 ->
   exists scores,
     Forall2 (child_value board is_maximizing)
       (filter (fun mv => cell board mv = EMPTY) cells) scores /\
     if is_maximizing then is_max_of s scores else is_min_of s scores).
Proof.
  intros Hwf Hv.
  specialize (Hv (S (count_empty board)) 0%Z (Nat.lt_succ_diag_r _)).
  rewrite minimax_unfold in Hv by done.
  destruct (has_line board COMPUTER).
  { injection Hv as <-. by repeat split. }
  destruct (has_line board HUMAN).
  { injection Hv as <-. by repeat split. }
  destruct (Nat.eqb_spec (count_empty board) 0) as [Hz|Hnz].
  { injection Hv as <-. by repeat split. }
  do 3 (split; [done|]). intros _ _ _.
  destruct (search_children (count_empty board) board (0 + 1) is_maximizing Hwf)
    as (scores & s' & Hall & Hloop & Hbest); [lia|done|].
  rewrite Hloop in Hv. injection Hv as ->.
  exists scores. split; [|done].
  eapply Forall2_impl_elem; [exact Hall|].
  intros mv y Hin Hchild.
  by eapply (child_score_value (count_empty board) (0 + 1)).
Qed.

End Value.

(** ** The computer never loses *)

Section Game.

Implicit Types (board : Grid) (turn : Turn) (st : Grid * Turn).

(** A mark completes no line of another mark. *)
Lemma has_line_set_other board r c v board' player :
  set board r c v = Ret board' -> v <> player ->
  has_line board' player = true -> has_line board player = true.
Proof.
  intros Hset Hv. unfold has_line. rewrite !existsb_exists.
  intros (line & Hin & Hfull). exists line. split; [done|].
  unfold line_full in *. rewrite forallb_forall in Hfull.
  apply forallb_forall. intros mv Hmv. specialize (Hfull mv Hmv).
  rewrite (cell_set _ _ _ _ _ mv Hset) in Hfull.
  destruct (decide (mv = (r, c))); [|done].
  by apply String.eqb_eq in Hfull.
Qed.

Lemma terminal_false board :
  wf_board board -> terminal board = Ret false ->
  has_line board HUMAN = false /\ has_line board COMPUTER = false /\
  count_empty board <> 0.
Proof.
  intros Hwf Ht. unfold terminal in Ht.
  rewrite !check_winner_pure, is_draw_pure in Ht by done. simpl in Ht.
  injection Ht as Ht.
  apply orb_false_iff in Ht as [[Hx Ho]%orb_false_iff Hd].
  rewrite Hx, Ho in Hd. simpl in Hd. by apply Nat.eqb_neq in Hd.
Qed.

Lemma some_move_existsb f moves : some_move f moves = existsb f moves.
Proof.
  induction moves as [|mv moves IH]; [done|]. simpl. by destruct (f mv).
Qed.

Lemma every_move_forallb f moves : every_move f moves = forallb f moves.
Proof.
  induction moves as [|mv moves IH]; [done|]. simpl. by destruct (f mv).
Qed.

(** Where the strategy search succeeds, the value is not negative. *)
Lemma holds_draw_sound n :
  forall board is_maximizing s,
    wf_board board -> holds_draw n board is_maximizing = true ->
    value_is board is_maximizing s -> (0 <= s)%Z.
Proof.
  induction n as [|n IH]; intros board m s Hwf Hd Hv; [done|].
  cbn [holds_draw] in Hd.
  destruct (value_cases board m s Hwf Hv) as (Hwon & Hlost & Hfull & Hsearch).
  destruct (has_line board COMPUTER); [rewrite Hwon by done; lia|].
  destruct (has_line board HUMAN); [done|].
  destruct (decide (count_empty board = 0)) as [Hz|Hnz];
    [rewrite Hfull by done; lia|].
  destruct (Hsearch eq_refl eq_refl Hnz) as (scores & Hall & Hbest).
  destruct (filter (fun mv => cell board mv = EMPTY) cells)
    as [|mv0 moves] eqn:Hmoves.
  { rewrite count_empty_filter, Hmoves in Hnz by done. done. }
  destruct m.
  - rewrite some_move_existsb in Hd.
    apply existsb_exists in Hd as (mv & Hin%list_elem_of_In & Hmv).
    apply list_elem_of_lookup_1 in Hin as [i Hi].
    destruct (Forall2_lookup_l _ _ _ _ _ Hall Hi)
      as (x & Hx & board1 & Hset & Hwf1 & Hv1).
    rewrite Hset in Hmv. specialize (IH _ _ _ Hwf1 Hmv Hv1).
    destruct Hbest as [_ Hmax]. eapply Forall_lookup_1 in Hmax; [|exact Hx].
    simpl in Hmax. lia.
  - rewrite every_move_forallb, forallb_forall in Hd.
    destruct Hbest as [Hin _].
    apply list_elem_of_lookup_1 in Hin as [i Hi].
    destruct (Forall2_lookup_r _ _ _ _ _ Hall Hi)
      as (mv & Hmv & board1 & Hset & Hwf1 & Hv1).
    apply list_elem_of_lookup_2, list_elem_of_In in Hmv.
    specialize (Hd mv Hmv). rewrite Hset in Hd. by eapply IH.
Qed.

Lemma holds_draw_from_start : holds_draw 10 new_board false = true.
Proof. vm_compute. reflexivity. Qed.

Lemma find_best_move_inv fuel board best board1 :
  wf_board board ->
  find_best_move fuel board = Ret (best, board1) ->
  board1 = board /\
  forall mv, best = Some mv ->
    exists s, child_value board true mv s /\
      forall scores,
        Forall2 (child_value board true)
          (filter (fun mv => cell board mv = EMPTY) cells) scores ->
        Forall (fun x => (x <= s)%Z) scores.
Proof.
  intros Hwf Hfind.
  assert (find_best_move (Nat.max fuel 9) board = Ret (best, board1)) as H1
    by (eapply find_best_move_fuel_mono; [|exact Hfind]; lia).
  pose proof (count_empty_le board Hwf) as Hle.
  destruct (find_best_move_spec board (Nat.max fuel 9) Hwf)
    as (moves & Hmoves &
        [[-> H2]|(_ & scores & i & mv & Hall & H2 & Hmv & Hfirst)]);
    [lia| |]; rewrite H1 in H2; injection H2 as -> ->; (split; [done|]);
    [done|].
  intros ? [= <-].
  rewrite get_available_moves_filter in Hmoves by done. injection Hmoves as <-.
  assert (Forall2 (child_value board true)
            (filter (fun mv => cell board mv = EMPTY) cells) scores) as Hvals.
  { eapply Forall2_impl_elem; [exact Hall|]. intros mv' y Hin Hchild.
    eapply (child_score_value (Nat.max fuel 9) 0 board true);
      [done|done|lia|done]. }
  destruct Hfirst as (s & Hs & Hmax & _). exists s. split.
  - destruct (Forall2_lookup_l _ _ _ _ _ Hvals Hmv) as (x & Hx & Hchild).
    rewrite Hs in Hx. by injection Hx as <-.
  - intros scores' Hvals'.
    replace scores' with scores; [done|].
    eapply Forall2_agree; [exact Hvals|exact Hvals'|].
    intros mv' y y' _ (b1 & Hset & _ & Hy) (b1' & Hset' & _ & Hy').
    rewrite Hset in Hset'. injection Hset' as <-. by eapply value_unique.
Qed.

Lemma game_inv_start : game_inv (new_board, HumanTurn).
Proof.
  split; [exact wf_new_board|]. split; [reflexivity|].
  destruct (value_exists new_board false wf_new_board) as (s & _ & Hv).
  exists s. split; [done|].
  exact (holds_draw_sound 10 new_board false s wf_new_board
           holds_draw_from_start Hv).
Qed.

Lemma game_inv_step st st' : game_inv st -> step st st' -> game_inv st'.
Proof.
  intros [Hwf Hinv] Hstep.
  destruct Hstep as [board moves row col board' Ht Hmoves Hin Hset
                    |board fuel row col board1 board' Ht Hfind Hset];
    simpl in Hwf, Hinv; destruct Hinv as (_ & s & Hv & Hs);
    destruct (terminal_false board Hwf Ht) as (Hx & Ho & Hne);
    destruct (value_cases board _ s Hwf Hv) as (_ & _ & _ & Hsearch);
    destruct (Hsearch Ho Hx Hne) as (scores & Hall & Hbest).
  - rewrite get_available_moves_filter in Hmoves by done.
    injection Hmoves as <-.
    apply list_elem_of_lookup_1 in Hin as [i Hi].
    destruct (Forall2_lookup_l _ _ _ _ _ Hall Hi)
      as (x & Hxi & board1 & Hset1 & Hwf1 & Hv1).
    simpl in Hset1. rewrite Hset in Hset1. injection Hset1 as <-.
    split; [done|]. split.
    + apply not_true_is_false. intros Hline.
      apply (has_line_set_other _ _ _ _ _ _ Hset) in Hline; [|done].
      by rewrite Ho in Hline.
    + exists x. split; [done|]. destruct Hbest as [_ Hmin].
      eapply Forall_lookup_1 in Hmin; [|exact Hxi]. simpl in Hmin. lia.
  - destruct (find_best_move_inv _ _ _ _ Hwf Hfind) as [-> Hbestmv].
    destruct (Hbestmv (row, col) eq_refl)
      as (x & (board1 & Hset1 & Hwf1 & Hv1) & Hmax).
    simpl in Hset1. rewrite Hset in Hset1. injection Hset1 as <-.
    split; [done|]. split.
    + apply not_true_is_false. intros Hline.
      apply (has_line_set_other _ _ _ _ _ _ Hset) in Hline; [|done].
      by rewrite Hx in Hline.
    + exists x. split; [done|]. destruct Hbest as [Hin _].
      specialize (Hmax scores Hall).
      eapply Forall_forall in Hmax; [|exact Hin]. simpl in Hmax. lia.
Qed.

Lemma game_inv_reachable st : reachable st -> game_inv st.
Proof.
  unfold reachable. revert st. apply rtc_ind_r.
  - exact game_inv_start.
  - intros st st' _ Hstep IH. by eapply game_inv_step.
Qed.

(** In a state that is not terminal the side to move has a move. *)
Lemma game_progress board turn :
  reachable (board, turn) -> terminal board = Ret false ->
  exists st', step (board, turn) st'.
Proof.
  intros [Hwf _]%game_inv_reachable Ht. simpl in Hwf.
  destruct (terminal_false board Hwf Ht) as (_ & _ & Hne).
  rewrite count_empty_filter in Hne by done.
  destruct turn.
  - destruct (filter (fun mv => cell board mv = EMPTY) cells)
      as [|[row col] moves] eqn:Hmoves; [done|].
    assert ((row, col) ∈ filter (fun mv => cell board mv = EMPTY) cells)
      as [_ [Hr Hc]%elem_of_cells]%list_elem_of_filter
      by (rewrite Hmoves; left).
    destruct (set_total board row col HUMAN Hwf Hr Hc) as [board' Hset].
    exists (board', ComputerTurn).
    eapply step_human; [done|by apply get_available_moves_filter| |done].
    rewrite Hmoves. left.
  - destruct (find_best_move_spec board 9 Hwf (count_empty_le board Hwf))
      as (moves & Hmoves & [[-> _]|(_ & _ & _ & [row col] & _ & Hfind & _)]).
    { rewrite get_available_moves_filter in Hmoves by done.
      injection Hmoves as Hnil. by rewrite Hnil in Hne. }
    destruct (find_best_move_inv _ _ _ _ Hwf Hfind) as [_ Hin].
    destruct (Hin (row, col) eq_refl) as (_ & (board' & Hset & _) & _).
    exists (board', HumanTurn). by eapply step_computer.
Qed.

End Game.

(** C1: in every game played from the empty board, HUMAN moving first, the
    sides alternating, every move placed on an EMPTY cell, play stopping at
    the first terminal state, HUMAN playing any legal moves and COMPUTER the
    move [find_best_move] returns, no state has [check_winner('X')] true. *)
Theorem computer_never_loses board turn :
  reachable (board, turn) -> check_winner board HUMAN = Ret false.
Proof.
  intros [Hwf Hinv]%game_inv_reachable. simpl in Hwf, Hinv.
  rewrite check_winner_pure by done. f_equal.
  destruct turn; destruct Hinv as (Hline & s & Hv & Hs); [done|].
  destruct (value_cases board true s Hwf Hv) as (_ & Hlost & _).
  destruct (has_line board HUMAN); [|done].
  specialize (Hlost Hline eq_refl). lia.
Qed.

Lemma computer_never_loses_witness :
  reachable (after_first_round, HumanTurn) /\
  check_winner after_first_round HUMAN = Ret false.
Proof.
  assert (reachable (after_first_round, HumanTurn)) as Hreach.
  { eapply rtc_l.
    - apply (step_human new_board
               [(0, 0); (0, 1); (0, 2); (1, 0); (1, 1); (1, 2);
                (2, 0); (2, 1); (2, 2)] 0 0 after_opening);
        [reflexivity|reflexivity|left|reflexivity].
    - eapply rtc_l; [|apply rtc_refl].
      apply (step_computer after_opening 9 1 1 after_opening
               after_first_round);
        [reflexivity|vm_compute; reflexivity|reflexivity]. }
  split; [exact Hreach|].
  apply (computer_never_loses after_first_round HumanTurn). exact Hreach.
Defined.

(** ** More on the board queries *)

Section MoreQueries.

Implicit Types (board : Grid) (mv : Move) (player v : string).

Lemma print_row_inj i a b c a' b' c' :
  i < 3 ->
  Forall game_mark [a; b; c] -> Forall game_mark [a'; b'; c'] ->
  join " | " (row_display i 0 [a; b; c])
  = join " | " (row_display i 0 [a'; b'; c']) ->
  [a; b; c] = [a'; b'; c'].
Proof.
  intros Hi H H'.
  apply Forall_cons in H as [Ha H]. apply Forall_cons in H as [Hb H].
  apply Forall_cons in H as [Hc _].
  apply Forall_cons in H' as [Ha' H']. apply Forall_cons in H' as [Hb' H'].
  apply Forall_cons in H' as [Hc' _].
  destruct i as [|[|[|i]]]; [| | |lia];
    destruct Ha as [->|[->| ->]]; destruct Ha' as [->|[->| ->]];
    (try (intros Heq; vm_compute in Heq; discriminate Heq));
    destruct Hb as [->|[->| ->]]; destruct Hb' as [->|[->| ->]];
    (try (intros Heq; vm_compute in Heq; discriminate Heq));
    destruct Hc as [->|[->| ->]]; destruct Hc' as [->|[->| ->]];
    (try (intros Heq; vm_compute in Heq; discriminate Heq));
    reflexivity.
Qed.

Lemma game_board_rows board :
  game_board board ->
  exists r0 r1 r2,
    board = [r0; r1; r2] /\
    Forall (fun r => exists a b c, r = [a; b; c] /\ Forall game_mark r)
      [r0; r1; r2].
Proof.
  intros [Hwf Hmarks].
  apply wf_board_shape in Hwf as (a0&a1&a2&b0&b1&b2&c0&c1&c2&->).
  apply Forall_cons in Hmarks as [H0 Hmarks].
  apply Forall_cons in Hmarks as [H1 Hmarks].
  apply Forall_cons in Hmarks as [H2 _].
  do 3 eexists. split; [done|]. repeat constructor; eauto 6.
Qed.

(** The cells around the written one keep their content; the written one
    takes the new content. *)
Lemma line_full_set_other board r c v board' player line :
  set board r c v = Ret board' ->
  cell board (r, c) <> player -> v <> player ->
  line_full board' player line = line_full board player line.
Proof.
  intros Hset Hold Hnew. unfold line_full.
  induction line as [|mv line IH]; [done|]. simpl. rewrite IH. f_equal.
  rewrite (cell_set _ _ _ _ _ mv Hset).
  destruct (decide (mv = (r, c))) as [->|Hne]; [|done].
  destruct (String.eqb_spec v player);
    destruct (String.eqb_spec (cell board (r, c)) player); done.
Qed.

Lemma has_line_set_frame board r c v board' player :
  set board r c v = Ret board' ->
  cell board (r, c) <> player -> v <> player ->
  has_line board' player = has_line board player.
Proof.
  intros Hset Hold Hnew. unfold has_line.
  induction lines as [|line ls IH]; [done|]. simpl.
  by rewrite IH, (line_full_set_other _ _ _ _ _ _ _ Hset).
Qed.

End MoreQueries.

(** X1: on boards whose cells hold only '', 'X' or 'O', [print_board] is
    unambiguous: two boards that print the same lines are equal. *)
Theorem print_board_unambiguous board1 board2 :
  game_board board1 -> game_board board2 ->
  print_board board1 = print_board board2 -> board1 = board2.
Proof.
  intros (r0 & r1 & r2 & -> & H)%game_board_rows
         (r0' & r1' & r2' & -> & H')%game_board_rows.
  apply Forall_cons in H as [(a0 & b0 & c0 & -> & M0) H].
  apply Forall_cons in H as [(a1 & b1 & c1 & -> & M1) H].
  apply Forall_cons in H as [(a2 & b2 & c2 & -> & M2) _].
  apply Forall_cons in H' as [(a0' & b0' & c0' & -> & M0') H'].
  apply Forall_cons in H' as [(a1' & b1' & c1' & -> & M1') H'].
  apply Forall_cons in H' as [(a2' & b2' & c2' & -> & M2') _].
  unfold print_board. cbn [print_rows Nat.ltb Nat.leb app].
  intros [= E0 E1 E2].
  apply (print_row_inj 0) in E0; [|lia|done|done].
  apply (print_row_inj 1) in E1; [|lia|done|done].
  apply (print_row_inj 2) in E2; [|lia|done|done].
  by rewrite E0, E1, E2.
Qed.

Lemma print_board_unambiguous_witness :
  game_board sample_board /\ game_board sample_board /\
  print_board sample_board = print_board sample_board /\
  sample_board = sample_board.
Proof.
  assert (game_board sample_board) as Hg.
  { split; [exact wf_sample_board|].
    repeat (apply Forall_cons; split); try apply Forall_nil;
      unfold game_mark, EMPTY, HUMAN, COMPUTER; tauto. }
  split; [exact Hg|]. split; [exact Hg|]. split; [reflexivity|].
  apply (print_board_unambiguous sample_board sample_board Hg Hg).
  reflexivity.
Defined.

(** The restriction to the marks of the game is needed: a cell holding the
    text of its own coordinates prints like an empty cell. *)
Example print_board_ambiguous :
  print_board [["(0,0)"; "X"; "O"]; ["X"; "O"; "X"]; ["O"; "X"; "O"]]
  = print_board [[EMPTY; "X"; "O"]; ["X"; "O"; "X"]; ["O"; "X"; "O"]].
Proof. reflexivity. Qed.

(** X2: [check_winner(player)] is [True] exactly when [player] fills a row, a
    column, the main diagonal or the anti-diagonal. *)
Theorem check_winner_iff_line board player :
  wf_board board ->
  exists w,
    check_winner board player = Ret w /\
    (w = true <->
     (exists row, row < 3 /\
        forall col, col < 3 -> get board row col = Ret player) \/
     (exists col, col < 3 /\
        forall row, row < 3 -> get board row col = Ret player) \/
     (forall i, i < 3 -> get board i i = Ret player) \/
     (forall i, i < 3 -> get board i (2 - i) = Ret player)).
Proof.
  intros Hwf. exists (has_line board player).
  split; [by apply check_winner_pure|].
  rewrite has_line_iff by done. split.
  - intros (line & Hin & Hall).
    unfold lines, row_lines, col_lines, main_diagonal, anti_diagonal in Hin.
    simpl in Hin.
    repeat (apply elem_of_cons in Hin as [->|Hin]).
    + left. exists 0. split; [lia|]. intros [|[|[|col]]] Hc; [| | |lia];
        apply Hall; set_solver.
    + left. exists 1. split; [lia|]. intros [|[|[|col]]] Hc; [| | |lia];
        apply Hall; set_solver.
    + left. exists 2. split; [lia|]. intros [|[|[|col]]] Hc; [| | |lia];
        apply Hall; set_solver.
    + right. left. exists 0. split; [lia|].
      intros [|[|[|row]]] Hr; [| | |lia]; apply Hall; set_solver.
    + right. left. exists 1. split; [lia|].
      intros [|[|[|row]]] Hr; [| | |lia]; apply Hall; set_solver.
    + right. left. exists 2. split; [lia|].
      intros [|[|[|row]]] Hr; [| | |lia]; apply Hall; set_solver.
    + do 2 right. left. intros [|[|[|i]]] Hi; [| | |lia];
        apply Hall; set_solver.
    + do 3 right. intros [|[|[|i]]] Hi; [| | |lia]; apply Hall; set_solver.
    + by apply elem_of_nil in Hin.
  - intros [(row & Hr & Hall)|[(col & Hc & Hall)|[Hall|Hall]]].
    + exists (map (fun col => (row, col)) range3). split.
      * unfold lines, row_lines.
        destruct row as [|[|[|row]]]; [| | |lia]; set_solver.
      * intros r c Hin. simpl in Hin.
        repeat (apply elem_of_cons in Hin as [[= -> ->]|Hin];
                [apply Hall; lia|]).
        by apply elem_of_nil in Hin.
    + exists (map (fun row => (row, col)) range3). split.
      * unfold lines, col_lines.
        destruct col as [|[|[|col]]]; [| | |lia]; set_solver.
      * intros r c Hin. simpl in Hin.
        repeat (apply elem_of_cons in Hin as [[= -> ->]|Hin];
                [apply Hall; lia|]).
        by apply elem_of_nil in Hin.
    + exists main_diagonal. split; [unfold lines; set_solver|].
      intros r c Hin. unfold main_diagonal in Hin. simpl in Hin.
      repeat (apply elem_of_cons in Hin as [[= -> ->]|Hin];
              [apply Hall; lia|]).
      by apply elem_of_nil in Hin.
    + exists anti_diagonal. split; [unfold lines; set_solver|].
      intros r c Hin. unfold anti_diagonal in Hin. simpl in Hin.
      repeat (apply elem_of_cons in Hin as [[= -> ->]|Hin];
              [apply (Hall 0) || apply (Hall 1) || apply (Hall 2); lia|]).
      by apply elem_of_nil in Hin.
Qed.

Lemma check_winner_iff_line_witness :
  wf_board won_board /\
  exists w,
    check_winner won_board COMPUTER = Ret w /\
    (w = true <->
     (exists row, row < 3 /\
        forall col, col < 3 -> get won_board row col = Ret COMPUTER) \/
     (exists col, col < 3 /\
        forall row, row < 3 -> get won_board row col = Ret COMPUTER) \/
     (forall i, i < 3 -> get won_board i i = Ret COMPUTER) \/
     (forall i, i < 3 -> get won_board i (2 - i) = Ret COMPUTER)).
Proof.
  assert (wf_board won_board) as Hwf
    by (split; [reflexivity|repeat constructor]).
  split; [exact Hwf|].
  apply (check_winner_iff_line won_board COMPUTER Hwf).
Defined.

(** X3: writing a mark on an EMPTY cell leaves [check_winner] as it was for
    every other mark of the game: after a move only the mover can have a new
    line. *)
Theorem check_winner_after_move board row col v board' player :
  wf_board board ->
  get board row col = Ret EMPTY ->
  set board row col v = Ret board' ->
  player <> v -> player <> EMPTY ->
  check_winner board' player = check_winner board player.
Proof.
  intros Hwf Hget Hset Hv He.
  pose proof (get_in_range _ _ _ _ Hwf Hget) as [Hr Hc].
  rewrite (get_cell _ _ _ Hwf Hr Hc) in Hget. injection Hget as Hcell.
  rewrite !check_winner_pure by eauto using set_wf. f_equal.
  apply (has_line_set_frame _ _ _ _ _ _ Hset); [by rewrite Hcell|done].
Qed.

Lemma check_winner_after_move_witness :
  wf_board sample_board /\
  get sample_board 0 2 = Ret EMPTY /\
  set sample_board 0 2 COMPUTER
  = Ret [["X"; "X"; "O"]; ["O"; EMPTY; EMPTY]; [EMPTY; EMPTY; EMPTY]] /\
  HUMAN <> COMPUTER /\ HUMAN <> EMPTY /\
  check_winner [["X"; "X"; "O"]; ["O"; EMPTY; EMPTY]; [EMPTY; EMPTY; EMPTY]]
    HUMAN
  = check_winner sample_board HUMAN.
Proof.
  split; [exact wf_sample_board|]. split; [reflexivity|].
  split; [reflexivity|]. split; [discriminate|]. split; [discriminate|].
  apply (check_winner_after_move sample_board 0 2 COMPUTER);
    [exact wf_sample_board|reflexivity|reflexivity|discriminate|discriminate].
Defined.

(** ** More on the search *)

Section MoreSearch.

Implicit Types (board : Grid) (mv : Move) (s : Z).

(** On a board that is not terminal [find_best_move] returns an available
    move whose score is the value of the board. *)
Lemma best_move_value board fuel :
  wf_board board -> terminal board = Ret false -> count_empty board <= fuel ->
  exists mv s,
    find_best_move fuel board = Ret (Some mv, board) /\
    mv ∈ filter (fun mv => cell board mv = EMPTY) cells /\
    child_score (fun b => minimax fuel b 0 false) COMPUTER board mv s /\
    value_is board true s.
Proof.
  intros Hwf Ht Hfuel.
  destruct (terminal_false board Hwf Ht) as (Hx & Ho & Hne).
  destruct (find_best_move_spec board fuel Hwf Hfuel)
    as (moves & Hmoves &
        [[-> _]|(_ & scores & i & mv & Hall & Hfind & Hmv & Hfirst)]);
    rewrite get_available_moves_filter in Hmoves by done;
    injection Hmoves as Hmoves.
  { rewrite count_empty_filter, Hmoves in Hne by done. done. }
  subst moves. destruct Hfirst as (x & Hxi & Hmax & _).
  destruct (Forall2_lookup_l _ _ _ _ _ Hall Hmv) as (x' & Hxi' & Hchild).
  rewrite Hxi in Hxi'. injection Hxi' as <-.
  exists mv, x. split; [done|].
  split; [by eapply list_elem_of_lookup_2|]. split; [done|].
  destruct (value_exists board true Hwf) as (s & _ & Hv).
  destruct (value_cases board true s Hwf Hv) as (_ & _ & _ & Hsearch).
  destruct (Hsearch Ho Hx Hne) as (scores' & Hall' & [Hin Hmax']).
  assert (scores = scores') as <-.
  { eapply Forall2_agree; [exact Hall|exact Hall'|].
    intros mv' y y' Hmv' Hy (b1' & Hset' & _ & Hy').
    apply (child_score_value fuel 0 board true) in Hy
      as (b1 & Hset & _ & Hy); [|done|done|done].
    rewrite Hset in Hset'. injection Hset' as <-. by eapply value_unique. }
  eapply Forall_forall in Hmax; [|exact Hin].
  eapply Forall_lookup_1 in Hmax'; [|exact Hxi]. simpl in Hmax, Hmax'.
  by replace x with s by lia.
Qed.

(** One move of a game fills one EMPTY cell and passes the turn. *)
Lemma step_count st st' :
  wf_board st.1 -> step st st' ->
  wf_board st'.1 /\ S (count_empty st'.1) = count_empty st.1 /\
  st'.2 = match st.2 with
          | HumanTurn => ComputerTurn
          | ComputerTurn => HumanTurn
          end.
Proof.
  intros Hwf Hstep. revert Hwf.
  destruct Hstep as [board moves row col board' Ht Hmoves Hin Hset
                    |board fuel row col board1 board' Ht Hfind Hset];
    cbn [fst snd]; intros Hwf.
  - rewrite get_available_moves_filter in Hmoves by done.
    injection Hmoves as <-. apply list_elem_of_filter in Hin as [He Hin].
    split; [by eapply set_wf|]. split; [|done].
    by eapply count_after_set.
  - pose proof (count_empty_le board Hwf) as Hle.
    destruct (best_move_value board (Nat.max fuel 9) Hwf Ht)
      as (mv & s & Hbest & [He Hin]%list_elem_of_filter & _); [lia|].
    rewrite (find_best_move_fuel_mono fuel (Nat.max fuel 9) _ _
               (Nat.le_max_l _ _) Hfind) in Hbest.
    injection Hbest as <- ->.
    split; [by eapply set_wf|]. split; [|done].
    by eapply count_after_set.
Qed.

Lemma nsteps_count n :
  forall st st',
    wf_board st.1 -> nsteps step n st st' ->
    count_empty st'.1 + n = count_empty st.1 /\
    st'.2 = if Nat.even n then st.2
            else match st.2 with
                 | HumanTurn => ComputerTurn
                 | ComputerTurn => HumanTurn
                 end.
Proof.
  induction n as [|n IH]; intros st st' Hwf Hsteps.
  - inversion Hsteps; subst. split; [lia|done].
  - inversion Hsteps as [|? ? st1 ? Hstep Hrest]; subst.
    destruct (step_count _ _ Hwf Hstep) as (Hwf1 & Hcount & Hturn).
    destruct (IH _ _ Hwf1 Hrest) as [Hc Ht]. split; [lia|].
    rewrite Ht, Hturn. rewrite Nat.even_succ, <- Nat.negb_even.
    destruct (Nat.even n), (st.2); done.
Qed.

End MoreSearch.

(** X4: [minimax] returns one of the ints -1, 0 and 1, never one of the
    infinities its loops start from. *)
Theorem minimax_score_range board depth is_maximizing fuel :
  wf_board board -> count_empty board < fuel ->
  exists s,
    minimax fuel board depth is_maximizing = Ret (Fin s, board) /\
    (s = (-1)%Z \/ s = 0%Z \/ s = 1%Z).
Proof.
  intros Hwf Hfuel.
  destruct (minimax_total fuel board depth is_maximizing Hwf Hfuel)
    as (s & Hs & Hm).
  exists s. split; [done|]. unfold unit_score in Hs. lia.
Qed.

Lemma minimax_score_range_witness :
  wf_board sample_board /\ count_empty sample_board < 10 /\
  exists s,
    minimax 10 sample_board 0 false = Ret (Fin s, sample_board) /\
    (s = (-1)%Z \/ s = 0%Z \/ s = 1%Z).
Proof.
  split; [exact wf_sample_board|]. split; [vm_compute; lia|].
  apply (minimax_score_range sample_board 0 false 10);
    [exact wf_sample_board|vm_compute; lia].
Defined.

(** X5: on a board that is not terminal, the move [find_best_move] returns
    has, as its score, the score [minimax] gives the board itself with
    [is_maximizing = True]: the move realises the value of the position. *)
Theorem find_best_move_optimal board fuel :
  wf_board board -> terminal board = Ret false -> count_empty board <= fuel ->
  exists row col board1 s,
    find_best_move fuel board = Ret (Some (row, col), board) /\
    set board row col COMPUTER = Ret board1 /\
    minimax fuel board1 0 false = Ret (Fin s, board1) /\
    minimax (S fuel) board 0 true = Ret (Fin s, board).
Proof.
  intros Hwf Ht Hfuel.
  destruct (best_move_value board fuel Hwf Ht Hfuel)
    as ([row col] & s & Hfind & _ & (board1 & Hset & Hscore) & Hv).
  exists row, col, board1, s. repeat (split; [done|]).
  apply Hv. lia.
Qed.

Lemma find_best_move_optimal_witness :
  wf_board sample_board /\ terminal sample_board = Ret false /\
  count_empty sample_board <= 9 /\
  exists row col board1 s,
    find_best_move 9 sample_board = Ret (Some (row, col), sample_board) /\
    set sample_board row col COMPUTER = Ret board1 /\
    minimax 9 board1 0 false = Ret (Fin s, board1) /\
    minimax 10 sample_board 0 true = Ret (Fin s, sample_board).
Proof.
  split; [exact wf_sample_board|]. split; [reflexivity|].
  split; [vm_compute; lia|].
  apply (find_best_move_optimal sample_board 9);
    [exact wf_sample_board|reflexivity|vm_compute; lia].
Defined.

(** X6: when nobody has won and the side to move can complete a line with one
    mark, [minimax] returns that side's winning score (1 when maximizing, -1
    when minimizing); and [find_best_move] then returns a move of score 1. *)
Theorem immediate_win_found board (is_maximizing : bool) row col board1
    fuel depth :
  wf_board board ->
  check_winner board COMPUTER = Ret false ->
  check_winner board HUMAN = Ret false ->
  get board row col = Ret EMPTY ->
  set board row col (if is_maximizing then COMPUTER else HUMAN)
  = Ret board1 ->
  check_winner board1 (if is_maximizing then COMPUTER else HUMAN)
  = Ret true ->
  count_empty board < fuel ->
  minimax fuel board depth is_maximizing
  = Ret (Fin (if is_maximizing then 1 else -1), board) /\
  (is_maximizing = true ->
   exists r c b1,
     find_best_move fuel board = Ret (Some (r, c), board) /\
     set board r c COMPUTER = Ret b1 /\
     minimax fuel b1 0 false = Ret (Fin 1, b1)).
Proof.
  intros Hwf Ho Hx Hget Hset Hwin Hfuel.
  assert (wf_board board1) as Hwf1 by (by eapply set_wf).
  rewrite check_winner_pure in Ho, Hx, Hwin by done.
  injection Ho as Ho. injection Hx as Hx. injection Hwin as Hwin.
  pose proof (get_in_range _ _ _ _ Hwf Hget) as [Hr Hc].
  rewrite (get_cell _ _ _ Hwf Hr Hc) in Hget. injection Hget as Hcell.
  assert ((row, col) ∈ filter (fun mv => cell board mv = EMPTY) cells) as Hin.
  { apply list_elem_of_filter. split; [done|by apply elem_of_cells]. }
  assert (count_empty board <> 0) as Hne.
  { rewrite count_empty_filter by done. intros Hlen.
    apply nil_length_inv in Hlen. rewrite Hlen in Hin.
    by apply elem_of_nil in Hin. }
  assert (value_is board is_maximizing (if is_maximizing then 1 else -1)%Z)
    as Hvalue.
  { destruct (value_exists board is_maximizing Hwf) as (s & Hs & Hv).
    destruct (value_cases board is_maximizing s Hwf Hv)
      as (_ & _ & _ & Hsearch).
    destruct (Hsearch Ho Hx Hne) as (scores & Hall & Hbest).
    apply list_elem_of_lookup_1 in Hin as [i Hi].
    destruct (Forall2_lookup_l _ _ _ _ _ Hall Hi)
      as (x & Hxi & b1 & Hset1 & _ & Hv1).
    simpl in Hset1. rewrite Hset in Hset1. injection Hset1 as <-.
    destruct (value_cases board1 _ x Hwf1 Hv1) as (Hwon & Hlost & _).
    unfold unit_score in Hs. destruct is_maximizing.
    - rewrite (Hwon Hwin) in Hxi. destruct Hbest as [_ Hmax].
      eapply Forall_lookup_1 in Hmax; [|exact Hxi]. simpl in Hmax.
      by replace s with 1%Z in Hv by lia.
    - assert (has_line board1 COMPUTER = false) as Ho1.
      { rewrite <- Ho. apply (has_line_set_frame _ _ _ _ _ _ Hset);
          [by rewrite Hcell|done]. }
      rewrite (Hlost Ho1 Hwin) in Hxi. destruct Hbest as [_ Hmin].
      eapply Forall_lookup_1 in Hmin; [|exact Hxi]. simpl in Hmin.
      by replace s with (-1)%Z in Hv by lia. }
  split; [by apply Hvalue|]. intros ->.
  assert (terminal board = Ret false) as Ht.
  { unfold terminal. rewrite !check_winner_pure, is_draw_pure by done.
    rewrite Ho, Hx. simpl. apply Nat.eqb_neq in Hne. by rewrite Hne. }
  destruct (best_move_value board fuel Hwf Ht)
    as ([r c] & s & Hfind & _ & (b1 & Hset1 & Hscore) & Hv); [lia|].
  rewrite (value_unique _ _ _ _ Hv Hvalue) in Hscore.
  by exists r, c, b1.
Qed.

Lemma immediate_win_found_witness :
  wf_board winning_board /\
  check_winner winning_board COMPUTER = Ret false /\
  check_winner winning_board HUMAN = Ret false /\
  get winning_board 0 2 = Ret EMPTY /\
  set winning_board 0 2 COMPUTER
  = Ret [["O"; "O"; "O"]; ["X"; "X"; "O"]; [EMPTY; EMPTY; EMPTY]] /\
  check_winner [["O"; "O"; "O"]; ["X"; "X"; "O"]; [EMPTY; EMPTY; EMPTY]]
    COMPUTER = Ret true /\
  count_empty winning_board < 10 /\
  minimax 10 winning_board 0 true = Ret (Fin 1, winning_board) /\
  (true = true ->
   exists r c b1,
     find_best_move 10 winning_board = Ret (Some (r, c), winning_board) /\
     set winning_board r c COMPUTER = Ret b1 /\
     minimax 10 b1 0 false = Ret (Fin 1, b1)).
Proof.
  assert (wf_board winning_board) as Hwf
    by (split; [reflexivity|repeat constructor]).
  do 6 (split; [first [exact Hwf|reflexivity]|]).
  split; [vm_compute; lia|].
  apply (immediate_win_found winning_board true 0 2
           [["O"; "O"; "O"]; ["X"; "X"; "O"]; [EMPTY; EMPTY; EMPTY]] 10 0);
    first [exact Hwf|reflexivity|vm_compute; lia].
Defined.

(** X7: a game lasts at most 9 moves: after [n] moves from the empty board
    exactly [9 - n] cells are EMPTY, and it is HUMAN's turn when [n] is even,
    COMPUTER's when it is odd. *)
Theorem game_length n board turn :
  nsteps step n (new_board, HumanTurn) (board, turn) ->
  count_empty board + n = 9 /\ n <= 9 /\
  turn = if Nat.even n then HumanTurn else ComputerTurn.
Proof.
  intros Hsteps.
  destruct (nsteps_count n (new_board, HumanTurn) (board, turn)
              wf_new_board Hsteps) as [Hcount Hturn].
  simpl in Hcount, Hturn. change (count_empty new_board) with 9 in Hcount.
  split; [done|]. split; [lia|done].
Qed.

Lemma game_length_witness :
  nsteps step 1 (new_board, HumanTurn) (after_opening, ComputerTurn) /\
  count_empty after_opening + 1 = 9 /\ 1 <= 9 /\
  ComputerTurn = if Nat.even 1 then HumanTurn else ComputerTurn.
Proof.
  assert (nsteps step 1 (new_board, HumanTurn) (after_opening, ComputerTurn))
    as Hsteps.
  { eapply nsteps_l; [|apply nsteps_O].
    apply (step_human new_board
             [(0, 0); (0, 1); (0, 2); (1, 0); (1, 1); (1, 2);
              (2, 0); (2, 1); (2, 2)] 0 0 after_opening);
      [reflexivity|reflexivity|left|reflexivity]. }
  split; [exact Hsteps|].
  apply (game_length 1 after_opening ComputerTurn Hsteps).
Defined.

(** ** The handlers of the window *)

Section Window.

Implicit Types (board : Grid) (app : App) (bs : list (list Button)).

Lemma config_button_inv f row col bs bs' :
  config_button f row col bs = Ret bs' ->
  exists r b,
    bs !! row = Some r /\ r !! col = Some b /\
    bs' = <[row := <[col := f b]> r]> bs.
Proof.
  unfold config_button. intros H.
  destruct (bs !! row) as [r|]; [|discriminate].
  destruct (r !! col) as [b|] eqn:Hb; [|discriminate].
  injection H as <-. by exists r, b.
Qed.

(** A button configured like the cell written keeps the buttons showing the
    board. *)
Lemma config_button_set f row col bs board v board' :
  fmap (M:=list) (fmap (M:=list) btn_text) bs = board ->
  set board row col v = Ret board' ->
  (forall b, btn_text (f b) = v) ->
  exists bs',
    config_button f row col bs = Ret bs' /\
    fmap (M:=list) (fmap (M:=list) btn_text) bs' = board'.
Proof.
  intros <- (r & x & Hr & Hx & ->)%set_inv Hf.
  rewrite list_lookup_fmap in Hr.
  destruct (bs !! row) as [rb|] eqn:Hrb; [|discriminate].
  injection Hr as <-. rewrite list_lookup_fmap in Hx.
  destruct (rb !! col) as [b|] eqn:Hb; [|discriminate].
  unfold config_button. rewrite Hrb, Hb. eexists. split; [done|].
  by rewrite !list_fmap_insert, Hf.
Qed.

Lemma mirror_shape bs board :
  fmap (M:=list) (fmap (M:=list) btn_text) bs = board -> wf_board board ->
  exists b00 b01 b02 b10 b11 b12 b20 b21 b22,
    bs = [[b00; b01; b02]; [b10; b11; b12]; [b20; b21; b22]].
Proof.
  intros <- (a0&a1&a2&b0&b1&b2&c0&c1&c2&H)%wf_board_shape.
  destruct bs as [|[|? [|? [|? [|]]]] [|[|? [|? [|? [|]]]] [|[|? [|? [|? [|]]]]
    [|]]]]; try discriminate H.
  repeat eexists.
Qed.

Lemma config_buttons_cells f bs board :
  fmap (M:=list) (fmap (M:=list) btn_text) bs = board -> wf_board board ->
  config_buttons f cells bs = Ret (fmap (M:=list) (fmap (M:=list) f) bs).
Proof.
  intros Hm Hwf.
  by destruct (mirror_shape _ _ Hm Hwf) as (?&?&?&?&?&?&?&?&?&->).
Qed.

Lemma game_board_set board row col v board' :
  game_board board -> set board row col v = Ret board' -> game_mark v ->
  game_board board'.
Proof.
  intros [Hwf Hmarks] Hset Hv. split; [by eapply set_wf|].
  apply set_inv in Hset as (r & x & Hr & Hx & ->).
  apply Forall_insert; [done|]. apply Forall_insert; [|done].
  by eapply Forall_lookup_1 in Hmarks.
Qed.

Lemma find_best_move_some fuel board mv board1 :
  wf_board board ->
  find_best_move fuel board = Ret (Some mv, board1) ->
  board1 = board /\ mv ∈ filter (fun mv => cell board mv = EMPTY) cells.
Proof.
  intros Hwf Hfind.
  pose proof (count_empty_le board Hwf) as Hle.
  apply (find_best_move_fuel_mono fuel (Nat.max fuel 9)) in Hfind; [|lia].
  destruct (find_best_move_spec board (Nat.max fuel 9) Hwf)
    as (moves & Hmoves &
        [[-> H2]|(_ & scores & i & mv' & _ & H2 & Hmv & _)]);
    [lia| |]; rewrite Hfind in H2; [discriminate|].
  injection H2 as -> ->. split; [done|].
  rewrite get_available_moves_filter in Hmoves by done.
  injection Hmoves as <-. by eapply list_elem_of_lookup_2.
Qed.

Lemma find_best_move_none fuel board board1 :
  wf_board board ->
  find_best_move fuel board = Ret (None, board1) ->
  board1 = board /\ count_empty board = 0.
Proof.
  intros Hwf Hfind.
  pose proof (count_empty_le board Hwf) as Hle.
  apply (find_best_move_fuel_mono fuel (Nat.max fuel 9)) in Hfind; [|lia].
  destruct (find_best_move_spec board (Nat.max fuel 9) Hwf)
    as (moves & Hmoves & [[-> H2]|(_ & scores & i & mv' & _ & H2 & _)]);
    [lia| |]; rewrite Hfind in H2; [|discriminate].
  injection H2 as ->. split; [done|].
  unfold count_empty. by rewrite Hmoves.
Qed.

Lemma end_game_inv message color app app' :
  end_game message color app = Ret app' ->
  ended message color (game app) (buttons app) (scheduled app) app'.
Proof.
  unfold end_game, disable_all_buttons, ended.
  cbn [game game_active status_text status_fg buttons scheduled].
  destruct (config_buttons disable_button cells (buttons app)) as [bs'| |];
    intros H; simpl in H; try discriminate.
  exists bs'. split; [done|]. by injection H.
Qed.

(** The ways [player_move] returns. *)
Lemma player_move_cases row col app app' :
  player_move row col app = Ret app' ->
  (game_active app = false /\ app' = app) \/
  (game_active app = true /\
   exists v, get (game app) row col = Ret v /\ v <> EMPTY /\
     app' = update_status "Cell already taken! Try another cell." "orange"
              app) \/
  (game_active app = true /\ get (game app) row col = Ret EMPTY /\
   exists board bs,
     set (game app) row col HUMAN = Ret board /\
     config_button (fun b => mkButton "X" (Some "blue") (btn_state b))
       row col (buttons app) = Ret bs /\
     ((check_winner board HUMAN = Ret true /\
       ended "Congratulations! You won!" "green" board bs (scheduled app)
         app') \/
      (check_winner board HUMAN = Ret false /\ is_draw board = Ret true /\
       ended "It's a draw! Good game!" "purple" board bs (scheduled app)
         app') \/
      (check_winner board HUMAN = Ret false /\ is_draw board = Ret false /\
       app' = mkApp board true "AI is thinking..." "orange" bs
                (S (scheduled app))))).
Proof.
  unfold player_move. intros H.
  destruct (game_active app) eqn:Hactive; simpl in H;
    [|left; split; [done|by injection H]].
  right. destruct (get (game app) row col) as [v| |] eqn:Hget;
    simpl in H; try discriminate.
  destruct (String.eqb_spec v EMPTY) as [->|Hv]; simpl in H;
    [|left; split; [done|]; exists v; by injection H].
  right. split; [done|]. split; [done|].
  destruct (set (game app) row col HUMAN) as [board| |] eqn:Hset;
    simpl in H; try discriminate.
  destruct (config_button _ row col (buttons app)) as [bs| |] eqn:Hbs;
    simpl in H; try discriminate.
  exists board, bs. split; [done|]. split; [done|].
  destruct (check_winner board HUMAN) as [[|]| |];
    simpl in H; try discriminate.
  { left. split; [done|]. by apply end_game_inv in H. }
  right. destruct (is_draw board) as [[|]| |]; simpl in H; try discriminate.
  { left. split; [done|]. split; [done|]. by apply end_game_inv in H. }
  right. split; [done|]. split; [done|]. by injection H.
Qed.

(** The ways [ai_move] returns. *)
Lemma ai_move_cases fuel app app' :
  ai_move fuel app = Ret app' ->
  (game_active app = false /\ app' = app) \/
  (game_active app = true /\
   exists board0,
     find_best_move fuel (game app) = Ret (None, board0) /\
     app' = mkApp board0 true (status_text app) (status_fg app)
              (buttons app) (scheduled app)) \/
  (game_active app = true /\
   exists row col board0 board bs,
     find_best_move fuel (game app) = Ret (Some (row, col), board0) /\
     set board0 row col COMPUTER = Ret board /\
     config_button (fun b => mkButton "O" (Some "red") (btn_state b))
       row col (buttons app) = Ret bs /\
     ((check_winner board COMPUTER = Ret true /\
       ended "AI wins! Better luck next time!" "red" board bs
         (scheduled app) app') \/
      (check_winner board COMPUTER = Ret false /\ is_draw board = Ret true /\
       ended "It's a draw! Good game!" "purple" board bs (scheduled app)
         app') \/
      (check_winner board COMPUTER = Ret false /\
       is_draw board = Ret false /\
       app' = mkApp board true "Your turn! Make your move." "green" bs
                (scheduled app)))).
Proof.
  unfold ai_move. intros H.
  destruct (game_active app) eqn:Hactive; simpl in H;
    [|left; split; [done|by injection H]].
  right.
  destruct (find_best_move fuel (game app))
    as [[[[row col]|] board0]| |] eqn:Hfind; simpl in H; try discriminate;
    [|left; split; [done|]; exists board0; split; [done|by injection H]].
  right. split; [done|].
  destruct (set board0 row col COMPUTER) as [board| |] eqn:Hset;
    simpl in H; try discriminate.
  destruct (config_button _ row col (buttons app)) as [bs| |] eqn:Hbs;
    simpl in H; try discriminate.
  exists row, col, board0, board, bs. do 3 (split; [done|]).
  destruct (check_winner board COMPUTER) as [[|]| |];
    simpl in H; try discriminate.
  { left. split; [done|]. by apply end_game_inv in H. }
  right. destruct (is_draw board) as [[|]| |]; simpl in H; try discriminate.
  { left. split; [done|]. split; [done|]. by apply end_game_inv in H. }
  right. split; [done|]. split; [done|]. by injection H.
Qed.

Lemma terminal_pure board :
  wf_board board ->
  terminal board
  = Ret (has_line board HUMAN || has_line board COMPUTER
         || (negb (has_line board HUMAN) && negb (has_line board COMPUTER)
             && Nat.eqb (count_empty board) 0)).
Proof.
  intros Hwf. unfold terminal.
  by rewrite !check_winner_pure, is_draw_pure by done.
Qed.

(** After a move that neither wins nor draws the game is not over: the other
    side has no line it did not have before. *)
Lemma move_not_terminal board row col v board' :
  wf_board board -> terminal board = Ret false ->
  get board row col = Ret EMPTY -> set board row col v = Ret board' ->
  v = HUMAN \/ v = COMPUTER ->
  check_winner board' v = Ret false -> is_draw board' = Ret false ->
  terminal board' = Ret false.
Proof.
  intros Hwf Ht Hget Hset Hv Hwin Hdraw.
  assert (wf_board board') as Hwf' by (by eapply set_wf).
  destruct (terminal_false board Hwf Ht) as (Hx & Ho & _).
  pose proof (get_in_range _ _ _ _ Hwf Hget) as [Hr Hc].
  rewrite (get_cell _ _ _ Hwf Hr Hc) in Hget. injection Hget as Hcell.
  rewrite terminal_pure by done.
  rewrite check_winner_pure in Hwin by done. injection Hwin as Hwin.
  rewrite is_draw_pure in Hdraw by done. injection Hdraw as Hdraw.
  rewrite Hdraw, orb_false_r. f_equal.
  destruct Hv as [-> | ->]; rewrite Hwin.
  - rewrite (has_line_set_frame _ _ _ _ _ COMPUTER Hset);
      [by rewrite Ho|by rewrite Hcell|done].
  - rewrite (has_line_set_frame _ _ _ _ _ HUMAN Hset);
      [by rewrite Hx|by rewrite Hcell|done].
Qed.

Lemma gui_inv_ended message color board bs n app' :
  game_board board ->
  fmap (M:=list) (fmap (M:=list) btn_text) bs = board ->
  terminal board = Ret true ->
  ended message color board bs n app' ->
  gui_inv app'.
Proof.
  intros Hgame Hmirror Ht (bs' & Hbs' & ->).
  rewrite (config_buttons_cells _ _ _ Hmirror (proj1 Hgame)) in Hbs'.
  injection Hbs' as <-.
  destruct (mirror_shape _ _ Hmirror (proj1 Hgame))
    as (?&?&?&?&?&?&?&?&?&->).
  split; [done|]. split; [done|]. split.
  - simpl. rewrite Ht. split; discriminate.
  - intros _. repeat constructor.
Qed.

Lemma game_board_new : game_board new_board.
Proof.
  split; [exact wf_new_board|]. unfold new_board. simpl.
  repeat (apply Forall_cons; split); try apply Forall_nil_2; by left.
Qed.

Lemma gui_inv_step in_turn app app' :
  gui_inv app -> gui_step in_turn app app' -> gui_inv app'.
Proof.
  intros (Hgame & Hmirror & Hactive & Hdisabled) Hstep.
  pose proof (proj1 Hgame) as Hwf.
  destruct Hstep as [row col app app' _ Hmove
                    |fuel n app app' _ Hmove
                    |app app' _ Hrestart].
  - apply player_move_cases in Hmove
      as [[_ ->]|[(_ & v & _ & _ & ->)
                 |(Hact & Hget & board & bs & Hset & Hbs & Hcases)]];
      [done|done|].
    apply Hactive in Hact as Ht.
    assert (game_board board) as Hgame'.
    { eapply game_board_set; [done|done|]. right. by left. }
    destruct (config_button_set
                (fun b => mkButton "X" (Some "blue") (btn_state b))
                row col _ _ _ _ Hmirror Hset) as (bs0 & Hbs0 & Hmirror');
      [done|].
    rewrite Hbs in Hbs0. injection Hbs0 as <-.
    destruct Hcases as [[Hwin Hend]|[(Hwin & Hdraw & Hend)
                                    |(Hwin & Hdraw & ->)]].
    + eapply gui_inv_ended; [done|done| |done].
      rewrite terminal_pure by apply Hgame'.
      rewrite check_winner_pure in Hwin by apply Hgame'.
      injection Hwin as ->. done.
    + eapply gui_inv_ended; [done|done| |done].
      rewrite terminal_pure by apply Hgame'.
      rewrite is_draw_pure in Hdraw by apply Hgame'.
      injection Hdraw as ->. by rewrite orb_true_r.
    + split; [done|]. split; [done|]. split; [|done]. simpl.
      split; [intros _|done].
      eapply (move_not_terminal (game app)); [done|done|done|done| |done|done].
      by left.
  - apply ai_move_cases in Hmove
      as [[_ ->]|[(Hact & board0 & Hfind & ->)
                 |(Hact & row & col & board0 & board & bs & Hfind & Hset
                   & Hbs & Hcases)]]; cbn [game game_active buttons] in *.
    + done.
    + apply (find_best_move_none _ _ _ Hwf) in Hfind as [-> _].
      split; [done|]. split; [done|]. split; [|done]. simpl.
      split; [intros _; by apply Hactive|done].
    + apply Hactive in Hact as Ht.
      apply (find_best_move_some _ _ _ _ Hwf) in Hfind
        as [-> [Hcell [Hr Hc]%elem_of_cells]%list_elem_of_filter].
      assert (get (game app) row col = Ret EMPTY) as Hget
        by (by rewrite (get_cell _ _ _ Hwf Hr Hc), Hcell).
      assert (game_board board) as Hgame'.
      { eapply game_board_set; [done|done|]. by do 2 right. }
      destruct (config_button_set
                  (fun b => mkButton "O" (Some "red") (btn_state b))
                  row col _ _ _ _ Hmirror Hset) as (bs0 & Hbs0 & Hmirror');
        [done|].
      rewrite Hbs in Hbs0. injection Hbs0 as <-.
      destruct Hcases as [[Hwin Hend]|[(Hwin & Hdraw & Hend)
                                      |(Hwin & Hdraw & ->)]].
      * eapply gui_inv_ended; [done|done| |done].
        rewrite terminal_pure by apply Hgame'.
        rewrite check_winner_pure in Hwin by apply Hgame'.
        injection Hwin as ->. by rewrite orb_true_r.
      * eapply gui_inv_ended; [done|done| |done].
        rewrite terminal_pure by apply Hgame'.
        rewrite is_draw_pure in Hdraw by apply Hgame'.
        injection Hdraw as ->. by rewrite orb_true_r.
      * split; [done|]. split; [done|]. split; [|done]. simpl.
        split; [intros _|done].
        eapply (move_not_terminal (game app));
          [done|done|done|done| |done|done].
        by right.
  - unfold restart_game in Hrestart.
    rewrite (config_buttons_cells _ _ _ Hmirror Hwf) in Hrestart.
    injection Hrestart as <-.
    destruct (mirror_shape _ _ Hmirror Hwf) as (?&?&?&?&?&?&?&?&?&->).
    split; [exact game_board_new|by repeat split].
Qed.

Lemma gui_inv_new_app : gui_inv new_app.
Proof. split; [exact game_board_new|by repeat split]. Qed.

Lemma gui_inv_reachable in_turn app :
  rtc (gui_step in_turn) new_app app -> gui_inv app.
Proof.
  revert app. apply rtc_ind_r; [exact gui_inv_new_app|].
  intros app app' _ Hstep IH. by eapply gui_inv_step.
Qed.







Lemma centre_clicked_reachable in_turn :
  rtc (gui_step in_turn) new_app centre_clicked.
Proof.
  apply rtc_once. by apply (gui_click in_turn 1 1 new_app centre_clicked).
Qed.

End Window.

(** X8: whatever the user clicks and whenever the callbacks run, the buttons
    show the board (the text of each button is the mark of its cell), and the
    board stays 3x3 with cells among '', 'X' and 'O'. *)
Theorem buttons_show_board app :
  rtc (gui_step false) new_app app ->
  fmap (M:=list) (fmap (M:=list) btn_text) (buttons app) = game app /\
  game_board (game app).
Proof.
  intros (Hgame & Hmirror & _)%gui_inv_reachable. by split.
Qed.

Lemma buttons_show_board_witness :
  rtc (gui_step false) new_app centre_clicked /\
  fmap (M:=list) (fmap (M:=list) btn_text) (buttons centre_clicked)
  = game centre_clicked /\
  game_board (game centre_clicked).
Proof.
  split; [exact (centre_clicked_reachable false)|].
  apply (buttons_show_board centre_clicked).
  exact (centre_clicked_reachable false).
Defined.

(** X9: in every state of the window [game_active] is [True] exactly when the
    board is not terminal (nobody has won and it is not a draw); and when it
    is [False] every button of the board is disabled. *)
Theorem game_active_iff_running app :
  rtc (gui_step false) new_app app ->
  (game_active app = true <-> terminal (game app) = Ret false) /\
  (game_active app = false ->
   Forall (Forall (fun b => btn_state b = "disabled")) (buttons app)).
Proof.
  intros (_ & _ & Hactive & Hdisabled)%gui_inv_reachable. by split.
Qed.

Lemma game_active_iff_running_witness :
  rtc (gui_step false) new_app centre_clicked /\
  (game_active centre_clicked = true
   <-> terminal (game centre_clicked) = Ret false) /\
  (game_active centre_clicked = false ->
   Forall (Forall (fun b => btn_state b = "disabled"))
     (buttons centre_clicked)).
Proof.
  split; [exact (centre_clicked_reachable false)|].
  apply (game_active_iff_running centre_clicked).
  exact (centre_clicked_reachable false).
Defined.



(** X11: in a running game [ai_move] returns, having written 'O' on the cell
    [find_best_move] names, which was EMPTY; it registers no callback. *)
Theorem ai_move_plays_best_move fuel app :
  gui_inv app -> game_active app = true ->
  count_empty (game app) <= fuel ->
  exists row col app',
    ai_move fuel app = Ret app' /\
    find_best_move fuel (game app) = Ret (Some (row, col), game app) /\
    get (game app) row col = Ret EMPTY /\
    set (game app) row col COMPUTER = Ret (game app') /\
    scheduled app' = scheduled app.
Proof.
  intros (Hgame & Hmirror & Hactive & _) Hact Hfuel.
  pose proof (proj1 Hgame) as Hwf. apply Hactive in Hact as Ht.
  destruct (best_move_value _ fuel Hwf Ht Hfuel)
    as ([row col] & s & Hfind
        & [Hcell [Hr Hc]%elem_of_cells]%list_elem_of_filter & _).
  destruct (set_total (game app) row col COMPUTER Hwf Hr Hc)
    as [board Hset].
  assert (wf_board board) as Hwf' by (by eapply set_wf).
  destruct (config_button_set
              (fun b => mkButton "O" (Some "red") (btn_state b))
              row col _ _ _ _ Hmirror Hset) as (bs & Hbs & Hmirror');
    [done|].
  pose proof (config_buttons_cells disable_button _ _ Hmirror' Hwf')
    as Hdisable.
  exists row, col. unfold ai_move. rewrite Hact, Hfind. simpl.
  rewrite Hset. simpl. rewrite Hbs. simpl.
  rewrite check_winner_pure, is_draw_pure by done. simpl.
  unfold end_game, disable_all_buttons.
  cbn [game game_active status_text status_fg buttons scheduled].
  rewrite Hdisable. simpl.
  assert (get (game app) row col = Ret EMPTY) as Hget
    by (by rewrite (get_cell _ _ _ Hwf Hr Hc), Hcell).
  destruct (has_line board COMPUTER); [by eexists|].
  destruct (_ && _); by eexists.
Qed.

Lemma ai_move_plays_best_move_witness :
  gui_inv centre_clicked /\ game_active centre_clicked = true /\
  count_empty (game centre_clicked) <= 9 /\
  exists row col app',
    ai_move 9 centre_clicked = Ret app' /\
    find_best_move 9 (game centre_clicked)
    = Ret (Some (row, col), game centre_clicked) /\
    get (game centre_clicked) row col = Ret EMPTY /\
    set (game centre_clicked) row col COMPUTER = Ret (game app') /\
    scheduled app' = scheduled centre_clicked.
Proof.
  assert (gui_inv centre_clicked) as Hinv
    by exact (gui_inv_reachable false _ (centre_clicked_reachable false)).
  split; [exact Hinv|]. split; [reflexivity|]. split; [vm_compute; lia|].
  apply (ai_move_plays_best_move 9 centre_clicked Hinv);
    [reflexivity|vm_compute; lia].
Defined.

(** X12: [restart_game] brings any window with its 3x3 grid of buttons back
    to the start: an empty board, [game_active] set, every button blank,
    enabled and black, the first status; it does not cancel a callback that
    is registered. *)
Theorem restart_game_resets app :
  length (buttons app) = 3 ->
  Forall (fun r => length r = 3) (buttons app) ->
  exists app',
    restart_game app = Ret app' /\
    game app' = new_board /\ game_active app' = true /\
    Forall (Forall (fun b => b = mkButton EMPTY (Some "black") "normal"))
      (buttons app') /\
    status_text app' = status_text new_app /\
    status_fg app' = status_fg new_app /\
    scheduled app' = scheduled app /\
    gui_inv app'.
Proof.
  intros Hrows Hcols.
  assert (wf_board
    (fmap (M:=list) (fmap (M:=list) btn_text) (buttons app))) as Hshape.
  { split; [by rewrite length_fmap|]. apply Forall_fmap.
    eapply Forall_impl; [exact Hcols|]. intros r Hr. simpl.
    by rewrite length_fmap. }
  unfold restart_game.
  rewrite (config_buttons_cells _ _ _ eq_refl Hshape). simpl.
  eexists. split; [done|].
  destruct (mirror_shape _ _ eq_refl Hshape) as (?&?&?&?&?&?&?&?&?&->).
  simpl. do 2 (split; [done|]). split; [by repeat constructor|].
  do 3 (split; [done|]).
  split; [exact game_board_new|by repeat split].
Qed.

Lemma restart_game_resets_witness :
  length (buttons centre_clicked) = 3 /\
  Forall (fun r => length r = 3) (buttons centre_clicked) /\
  exists app',
    restart_game centre_clicked = Ret app' /\
    game app' = new_board /\ game_active app' = true /\
    Forall (Forall (fun b => b = mkButton EMPTY (Some "black") "normal"))
      (buttons app') /\
    status_text app' = status_text new_app /\
    status_fg app' = status_fg new_app /\
    scheduled app' = scheduled centre_clicked /\
    gui_inv app'.
Proof.
  assert (Forall (fun r : list Button => length r = 3)
            (buttons centre_clicked)) as Hcols by repeat constructor.
  split; [reflexivity|]. split; [exact Hcols|].
  apply (restart_game_resets centre_clicked); [reflexivity|exact Hcols].
Defined.



(** Playing in turn is needed: [player_move] does not look at the registered
    callbacks, and three clicks before the first reply fill the top row. *)
Example three_clicks_out_of_turn :
  exists app,
    rtc (gui_step false) new_app app /\
    check_winner (game app) HUMAN = Ret true /\
    status_text app = "Congratulations! You won!" /\
    scheduled app = 2.
Proof.
  eexists. split; [|split; [|split]].
  - eapply rtc_l; [by apply (gui_click false 0 0 new_app)|].
    eapply rtc_l; [by eapply (gui_click false 0 1)|].
    eapply rtc_l; [by eapply (gui_click false 0 2)|]. apply rtc_refl.
  - reflexivity.
  - reflexivity.
  - reflexivity.
Qed.

(** ** Threats *)

Section Threats.

Implicit Types (board : Grid) (mv : Move).

Lemma has_line_mono board board' player :
  (forall mv, cell board mv = player -> cell board' mv = player) ->
  has_line board player = true -> has_line board' player = true.
Proof.
  intros Hcells. unfold has_line. rewrite !existsb_exists.
  intros (line & Hin & Hfull). exists line. split; [done|].
  unfold line_full in *. rewrite forallb_forall in Hfull.
  apply forallb_forall. intros mv Hmv.
  apply String.eqb_eq, Hcells, String.eqb_eq, Hfull, Hmv.
Qed.

(** A reply that leaves a winning move to X, and wins nothing itself, has
    score -1. *)
Lemma threat_ignored board row col boardX mv board1 s :
  wf_board board -> terminal board = Ret false ->
  cell board (row, col) = EMPTY ->
  set board row col HUMAN = Ret boardX -> has_line boardX HUMAN = true ->
  mv ∈ filter (fun mv => cell board mv = EMPTY) cells -> mv <> (row, col) ->
  set board mv.1 mv.2 COMPUTER = Ret board1 ->
  has_line board1 COMPUTER = false ->
  value_is board1 false s -> s = (-1)%Z.
Proof.
  intros Hwf Ht Hcell HsetX HlineX [Hmv Hin]%list_elem_of_filter Hne Hset1
         Ho1 Hv.
  destruct (terminal_false board Hwf Ht) as (Hx & Ho & _).
  destruct mv as [r c]. simpl in Hset1.
  assert (wf_board board1) as Hwf1 by (by eapply set_wf).
  pose proof (set_inv _ _ _ _ _ HsetX) as (rw & x & Hrw & Hxc & _).
  assert (row < 3 /\ col < 3) as [Hr Hc].
  { apply (get_in_range board row col x Hwf). unfold get. by rewrite Hrw, Hxc. }
  assert (cell board1 (row, col) = EMPTY) as Hcell1.
  { rewrite (cell_set _ _ _ _ _ _ Hset1). by rewrite decide_False by done. }
  assert (has_line board1 HUMAN = false) as Hx1.
  { rewrite <- Hx. apply (has_line_set_frame _ _ _ _ _ _ Hset1);
      [by rewrite Hmv|done]. }
  assert ((row, col) ∈ filter (fun mv => cell board1 mv = EMPTY) cells)
    as Hin1.
  { apply list_elem_of_filter. split; [done|by apply elem_of_cells]. }
  assert (count_empty board1 <> 0) as Hne1.
  { rewrite count_empty_filter by done. intros Hlen.
    apply nil_length_inv in Hlen. rewrite Hlen in Hin1.
    by apply elem_of_nil in Hin1. }
  destruct (value_cases board1 false s Hwf1 Hv) as (_ & _ & _ & Hsearch).
  destruct (Hsearch Ho1 Hx1 Hne1) as (scores & Hall & [Hs Hmin]).
  apply list_elem_of_lookup_1 in Hin1 as [i Hi].
  destruct (Forall2_lookup_l _ _ _ _ _ Hall Hi)
    as (x2 & Hx2 & board2 & Hset2 & Hwf2 & Hv2).
  simpl in Hset2.
  destruct (value_cases board2 true x2 Hwf2 Hv2) as (_ & Hlost & _).
  assert (has_line board2 COMPUTER = false) as Ho2.
  { rewrite <- Ho1. apply (has_line_set_frame _ _ _ _ _ _ Hset2);
      [by rewrite Hcell1|done]. }
  assert (has_line board2 HUMAN = true) as Hx2line.
  { apply (has_line_mono boardX); [|done]. intros m.
    rewrite (cell_set _ _ _ _ _ m HsetX), (cell_set _ _ _ _ _ m Hset2),
      (cell_set _ _ _ _ _ m Hset1).
    destruct (decide (m = (row, col))); [done|].
    destruct (decide (m = (r, c))) as [->|]; [|done].
    rewrite Hmv. discriminate. }
  rewrite (Hlost Ho2 Hx2line) in Hx2.
  eapply Forall_lookup_1 in Hmin; [|exact Hx2]. simpl in Hmin.
  destruct (value_exists board1 false Hwf1) as (s' & Hs' & Hv').
  rewrite (value_unique _ _ _ _ Hv Hv'). unfold unit_score in Hs'.
  rewrite (value_unique _ _ _ _ Hv Hv') in Hmin. lia.
Qed.

End Threats.

(** X14: [find_best_move] blocks: when X would complete a line on a cell, O
    cannot complete a line at once, and the position is not lost for O
    ([minimax] with [is_maximizing = True] is not negative), the move
    returned is that cell. *)
Theorem find_best_move_blocks board row col boardX fuel s :
  wf_board board -> terminal board = Ret false ->
  get board row col = Ret EMPTY ->
  set board row col HUMAN = Ret boardX ->
  check_winner boardX HUMAN = Ret true ->
  (forall r c board1,
     get board r c = Ret EMPTY -> set board r c COMPUTER = Ret board1 ->
     check_winner board1 COMPUTER = Ret false) ->
  count_empty board <= fuel ->
  minimax (S fuel) board 0 true = Ret (Fin s, board) -> (0 <= s)%Z ->
  find_best_move fuel board = Ret (Some (row, col), board).
Proof.
  intros Hwf Ht Hget HsetX HwinX Hnowin Hfuel Hvalue Hs.
  pose proof (get_in_range _ _ _ _ Hwf Hget) as [Hr Hc].
  rewrite (get_cell _ _ _ Hwf Hr Hc) in Hget. injection Hget as Hcell.
  rewrite check_winner_pure in HwinX by (by eapply set_wf).
  injection HwinX as HlineX.
  destruct (best_move_value board fuel Hwf Ht Hfuel)
    as (mv & s' & Hfind & Hin & Hchild & Hv).
  rewrite (Hv (S fuel) 0%Z) in Hvalue by lia. injection Hvalue as ->.
  destruct (decide (mv = (row, col))) as [->|Hne]; [done|].
  apply (child_score_value fuel 0 board true) in Hchild
    as (board1 & Hset1 & Hwf1 & Hv1); [|done|done|done].
  pose proof Hin as [Hmv Hmvin]%list_elem_of_filter.
  destruct mv as [r c]. apply elem_of_cells in Hmvin as [Hr' Hc'].
  assert (has_line board1 COMPUTER = false) as Ho1.
  { specialize (Hnowin r c board1).
    rewrite (get_cell _ _ _ Hwf Hr' Hc'), Hmv in Hnowin.
    specialize (Hnowin eq_refl Hset1).
    rewrite check_winner_pure in Hnowin by done. by injection Hnowin. }
  pose proof (threat_ignored board row col boardX (r, c) board1 s Hwf Ht
                Hcell HsetX HlineX Hin Hne Hset1 Ho1 Hv1).
  lia.
Qed.

Lemma find_best_move_blocks_witness :
  wf_board threat_board /\ terminal threat_board = Ret false /\
  get threat_board 0 2 = Ret EMPTY /\
  set threat_board 0 2 HUMAN
  = Ret [["X"; "X"; "X"]; [EMPTY; "O"; EMPTY]; [EMPTY; EMPTY; EMPTY]] /\
  check_winner [["X"; "X"; "X"]; [EMPTY; "O"; EMPTY]; [EMPTY; EMPTY; EMPTY]]
    HUMAN = Ret true /\
  (forall r c board1,
     get threat_board r c = Ret EMPTY ->
     set threat_board r c COMPUTER = Ret board1 ->
     check_winner board1 COMPUTER = Ret false) /\
  count_empty threat_board <= 9 /\
  minimax 10 threat_board 0 true = Ret (Fin 0, threat_board) /\
  (0 <= 0)%Z /\
  find_best_move 9 threat_board = Ret (Some (0, 2), threat_board).
Proof.
  assert (wf_board threat_board) as Hwf
    by (split; [reflexivity|repeat constructor]).
  assert (forall r c board1,
     get threat_board r c = Ret EMPTY ->
     set threat_board r c COMPUTER = Ret board1 ->
     check_winner board1 COMPUTER = Ret false) as Hnowin.
  { intros [|[|[|r]]] [|[|[|c]]] board1 Hget Hset;
      try discriminate Hget; injection Hset as <-; reflexivity. }
  assert (minimax 10 threat_board 0 true = Ret (Fin 0, threat_board))
    as Hvalue by (vm_compute; reflexivity).
  split; [exact Hwf|]. do 4 (split; [reflexivity|]).
  split; [exact Hnowin|]. split; [vm_compute; lia|].
  split; [exact Hvalue|]. split; [lia|].
  apply (find_best_move_blocks threat_board 0 2
           [["X"; "X"; "X"]; [EMPTY; "O"; EMPTY]; [EMPTY; EMPTY; EMPTY]] 9 0);
    [exact Hwf|reflexivity|reflexivity|reflexivity|reflexivity|exact Hnowin
    |vm_compute; lia|exact Hvalue|lia].
Defined.

(** [depth] is not read, so a line completed at once scores no more than a
    win that is only forced: here O can complete the bottom row on (2, 2),
    and [find_best_move] returns (1, 1), the first move of score 1. *)
Example best_move_may_delay_win :
  find_best_move 9 double_threat_board
  = Ret (Some (1, 1), double_threat_board) /\
  set double_threat_board 2 2 COMPUTER
  = Ret [[EMPTY; "X"; EMPTY]; ["X"; EMPTY; "X"]; ["O"; "O"; "O"]] /\
  check_winner [[EMPTY; "X"; EMPTY]; ["X"; EMPTY; "X"]; ["O"; "O"; "O"]]
    COMPUTER = Ret true /\
  check_winner [[EMPTY; "X"; EMPTY]; ["X"; "O"; "X"]; ["O"; "O"; EMPTY]]
    COMPUTER = Ret false.
Proof. repeat split; vm_compute; reflexivity. Qed.

(** X15: a click outside the board: [player_move] with an index of 3 or more
    does nothing when the game is over (it returns before it reads the board)
    and raises [IndexError] when the game is running. *)
Theorem player_move_out_of_range row col app :
  wf_board (game app) -> 3 <= row \/ 3 <= col ->
  player_move row col app
  = if game_active app then IndexError else Ret app.
Proof.
  intros [Hrows Hcols] Hout. unfold player_move.
  destruct (game_active app); [|done]. simpl.
  assert (get (game app) row col = IndexError) as ->; [|done].
  unfold get. destruct (game app !! row) as [r|] eqn:Hr; [|done].
  apply lookup_lt_Some in Hr as Hlt.
  eapply Forall_lookup_1 in Hcols; [|exact Hr]. simpl in Hcols.
  destruct (r !! col) as [v|] eqn:Hv; [|done].
  apply lookup_lt_Some in Hv. lia.
Qed.

Lemma player_move_out_of_range_witness :
  wf_board (game new_app) /\ (3 <= 3 \/ 3 <= 0) /\
  player_move 3 0 new_app
  = if game_active new_app then IndexError else Ret new_app.
Proof.
  split; [exact wf_new_board|]. split; [left; lia|].
  apply (player_move_out_of_range 3 0 new_app);
    [exact wf_new_board|left; lia].
Defined.

(** X16: [find_best_move] does not look whether the game is over: on a board
    'O' has already won, with a cell still EMPTY, it returns a move, the
    first available one (every move scores 1 there). *)
Theorem find_best_move_after_win board fuel mv moves :
  wf_board board ->
  check_winner board COMPUTER = Ret true ->
  get_available_moves board = Ret (mv :: moves) ->
  count_empty board <= fuel ->
  find_best_move fuel board = Ret (Some mv, board).
Proof.
  intros Hwf Hwin Hmoves Hfuel.
  rewrite check_winner_pure in Hwin by done. injection Hwin as Hline.
  assert (exists fuel', fuel = S fuel') as [fuel' ->].
  { unfold count_empty in Hfuel. rewrite Hmoves in Hfuel. simpl in Hfuel.
    destruct fuel; [lia|by eexists]. }
  destruct (find_best_move_spec board (S fuel') Hwf Hfuel)
    as (moves' & Hmoves' &
        [[-> _]|(_ & scores & i & mv' & Hall & Hfind & Hmv & Hfirst)]);
    rewrite Hmoves in Hmoves'; [discriminate|].
  injection Hmoves' as <-.
  assert (forall j x, scores !! j = Some x -> x = 1%Z) as Hones.
  { intros j x Hx.
    destruct (Forall2_lookup_r _ _ _ _ _ Hall Hx)
      as ([r c] & Hj & board1 & Hset & Hrec).
    simpl in Hset. assert (wf_board board1) as Hwf1 by (by eapply set_wf).
    rewrite minimax_unfold in Hrec by done.
    rewrite (has_line_mono board board1 COMPUTER) in Hrec;
      [by injection Hrec|
      |done].
    intros m Hm. rewrite (cell_set _ _ _ _ _ m Hset).
    by destruct (decide (m = (r, c))). }
  destruct Hfirst as (s & Hs & _ & Hbefore).
  destruct i as [|i]; [simpl in Hmv; by injection Hmv as <-|].
  destruct scores as [|x0 scores]; [done|].
  pose proof (Hones 0 x0 eq_refl) as ->.
  pose proof (Hones (S i) s Hs) as ->.
  specialize (Hbefore 0 1%Z (Nat.lt_0_succ i) eq_refl). lia.
Qed.

Lemma find_best_move_after_win_witness :
  wf_board won_board /\
  check_winner won_board COMPUTER = Ret true /\
  get_available_moves won_board = Ret [(1, 2); (2, 0); (2, 1); (2, 2)] /\
  count_empty won_board <= 9 /\
  find_best_move 9 won_board = Ret (Some (1, 2), won_board).
Proof.
  assert (wf_board won_board) as Hwf
    by (split; [reflexivity|repeat constructor]).
  split; [exact Hwf|]. do 2 (split; [reflexivity|]).
  split; [vm_compute; lia|].
  apply (find_best_move_after_win won_board 9 (1, 2)
           [(2, 0); (2, 1); (2, 2)]);
    [exact Hwf|reflexivity|reflexivity|vm_compute; lia].
Defined.
